(** * CANopen-monitor: frame classifier, liveness, dispatcher and bus multiplexer

    A shallow embedding of

      - [canopen_monitor/canmsgs/canmsg.py]   ([MessageType], [CANMsg]),
      - [canopen_monitor/parser/canopen.py]   ([CANOpenParser]),
      - [canopen_monitor/can/magic_can_bus.py] ([MagicCANBus]),

    followed by the properties of the specification that concern them.

    Conventions.  Python integers are [Z].  A call that may raise is given
    the type [outcome A]; the exception classes that occur are the
    constructors of [exn].  Time is counted in microseconds, the resolution
    of [datetime]; a Python [float] is the rational it stands for.  The
    constructors of classes that are not part of the sources
    ([pyvit.can.Frame], [Interface]) are arguments of the definitions that
    call them. *)

From Stdlib Require Import ZArith List Bool String Lia QArith HexadecimalString.
Import ListNotations.
Local Open Scope Z_scope.

(** ** Python outcomes *)

Inductive exn : Set :=
| AttributeError
| IndexError
| OSError
| StopIteration
| TypeError
| ValueError
| ConfigError
| CursesError.               (* curses.error *)

Inductive outcome (A : Type) : Type :=
| Returns (a : A)
| Raises (e : exn).
Arguments Returns {A} a.
Arguments Raises {A} e.

Definition bind {A B : Type} (m : outcome A) (k : A -> outcome B) : outcome B :=
  match m with
  | Returns a => k a
  | Raises e => Raises e
  end.

Notation "x <- m ;; k" := (bind m (fun x => k))
  (at level 61, m at next level, right associativity).

(** ** [class MessageType(Enum)] *)

Module MessageType.

Inductive t : Set :=
| NMT | SYNC | TIME | EMER
| PDO1_TX | PDO1_RX | PDO2_TX | PDO2_RX
| PDO3_TX | PDO3_RX | PDO4_TX | PDO4_RX
| SDO_TX | SDO_RX | HEARTBEAT | UKNOWN.

(** The value each member is declared with. *)
Definition value (m : t) : nat :=
  match m with
  | NMT => 0 | SYNC => 1 | TIME => 2 | EMER => 3
  | PDO1_TX => 4 | PDO1_RX => 5 | PDO2_TX => 6 | PDO2_RX => 7
  | PDO3_TX => 8 | PDO3_RX => 9 | PDO4_TX => 10 | PDO4_RX => 11
  | SDO_TX => 12 | SDO_RX => 13 | HEARTBEAT => 14 | UKNOWN => 15
  end%nat.

(** [MessageType(i)]: member lookup by value; [ValueError] when no member
    has that value. *)
Definition call (i : nat) : outcome t :=
  match i with
  | 0 => Returns NMT | 1 => Returns SYNC | 2 => Returns TIME
  | 3 => Returns EMER
  | 4 => Returns PDO1_TX | 5 => Returns PDO1_RX
  | 6 => Returns PDO2_TX | 7 => Returns PDO2_RX
  | 8 => Returns PDO3_TX | 9 => Returns PDO3_RX
  | 10 => Returns PDO4_TX | 11 => Returns PDO4_RX
  | 12 => Returns SDO_TX | 13 => Returns SDO_RX
  | 14 => Returns HEARTBEAT | 15 => Returns UKNOWN
  | _ => Raises ValueError
  end%nat.

(** The local table of [cob_id_to_type], rows in the order they are
    written: the row of index [i] belongs to the member of value [i]. *)
Definition node_ranges : list (Z * Z) :=
  [ (0x0, 0x0);
    (0x1, 0x7F);
    (0x100, 0x100);
    (0x80, 0x0FF);
    (0x180, 0x1FF);
    (0x200, 0x27F);
    (0x280, 0x2FF);
    (0x300, 0x37F);
    (0x380, 0x3FF);
    (0x400, 0x47F);
    (0x480, 0x4FF);
    (0x500, 0x57F);
    (0x580, 0x5FF);
    (0x600, 0x680);
    (0x700, 0x7FF) ].

(** [cob_id >= range[0] and cob_id <= range[1]] *)
Definition in_range (cob_id : Z) (range : Z * Z) : bool :=
  (cob_id >=? fst range) && (cob_id <=? snd range).

(** [for i, range in enumerate(ranges)]: the index of the first row that
    holds [cob_id], counting from [i]. *)
Fixpoint scan (cob_id : Z) (i : nat) (ranges : list (Z * Z)) : option nat :=
  match ranges with
  | [] => None
  | range :: rest =>
      if in_range cob_id range then Some i else scan cob_id (S i) rest
  end.

Definition cob_id_to_type (cob_id : Z) : outcome t :=
  match scan cob_id 0 node_ranges with
  | Some i => call i
  | None => call 15
  end.

(** What a name bound in a class body holds. *)
Inductive attribute : Type :=
| Member (m : t)
| Method
| Table (ranges : list (Z * Z)).

(** A class body, as the names it binds. *)
Definition namespace : Type := list (string * attribute).

(** The body of [class MessageType], top to bottom. *)
Definition class_body : namespace :=
  [ ("NMT", Member NMT); ("SYNC", Member SYNC); ("TIME", Member TIME);
    ("EMER", Member EMER);
    ("PDO1_TX", Member PDO1_TX); ("PDO1_RX", Member PDO1_RX);
    ("PDO2_TX", Member PDO2_TX); ("PDO2_RX", Member PDO2_RX);
    ("PDO3_TX", Member PDO3_TX); ("PDO3_RX", Member PDO3_RX);
    ("PDO4_TX", Member PDO4_TX); ("PDO4_RX", Member PDO4_RX);
    ("SDO_TX", Member SDO_TX); ("SDO_RX", Member SDO_RX);
    ("HEARTBEAT", Member HEARTBEAT); ("UKNOWN", Member UKNOWN);
    ("cob_id_to_type", Method);
    ("cob_id_to_node_id", Method);
    ("__str__", Method) ]%string.

(** [cls.attr]: [AttributeError] when the class binds no such name. *)
Fixpoint getattr (cls : namespace) (attr : string) : outcome attribute :=
  match cls with
  | [] => Raises AttributeError
  | (n, a) :: rest => if String.eqb n attr then Returns a else getattr rest attr
  end.

(** [for range in x]: the rows iterated over; a member or a function is
    not iterable. *)
Definition iter (a : attribute) : outcome (list (Z * Z)) :=
  match a with
  | Table ranges => Returns ranges
  | Member _ | Method => Raises TypeError
  end.

(** The loop of [cob_id_to_node_id] over the rows of a table; the Python
    [None] is the [None] of [option]. *)
Fixpoint node_id_scan (cob_id : Z) (ranges : list (Z * Z)) : option Z :=
  match ranges with
  | [] => None
  | range :: rest =>
      if in_range cob_id range then Some (cob_id - fst range)
      else node_id_scan cob_id rest
  end.

(** [cob_id_to_node_id], run against a class body [cls]: the loop header
    evaluates [MessageType.NODE_RANGES] first. *)
Definition cob_id_to_node_id_in (cls : namespace) (cob_id : Z)
  : outcome (option Z) :=
  a <- getattr cls "NODE_RANGES" ;;
  ranges <- iter a ;;
  Returns (node_id_scan cob_id ranges).

Definition cob_id_to_node_id (cob_id : Z) : outcome (option Z) :=
  cob_id_to_node_id_in class_body cob_id.

End MessageType.

(** ** Table 1 of the specification

    Written from the specification's table, row by row, to be compared with
    [MessageType.cob_id_to_type].  EMCY is the member [EMER] and UNKNOWN the
    member [UKNOWN] of the source. *)

Definition between (lo hi x : Z) : bool := (lo <=? x) && (x <=? hi).

Definition table1 (identifier : Z) : MessageType.t :=
  let row lo hi := between lo hi identifier in
  if row 0x000 0x000 then MessageType.NMT
  else if row 0x001 0x07F then MessageType.SYNC
  else if row 0x080 0x0FF then MessageType.EMER
  else if row 0x100 0x100 then MessageType.TIME
  else if row 0x180 0x1FF then MessageType.PDO1_TX
  else if row 0x200 0x27F then MessageType.PDO1_RX
  else if row 0x280 0x2FF then MessageType.PDO2_TX
  else if row 0x300 0x37F then MessageType.PDO2_RX
  else if row 0x380 0x3FF then MessageType.PDO3_TX
  else if row 0x400 0x47F then MessageType.PDO3_RX
  else if row 0x480 0x4FF then MessageType.PDO4_TX
  else if row 0x500 0x57F then MessageType.PDO4_RX
  else if row 0x580 0x5FF then MessageType.SDO_TX
  else if row 0x600 0x67F then MessageType.SDO_RX
  else if row 0x700 0x7FF then MessageType.HEARTBEAT
  else MessageType.UKNOWN.

(** The base of the Table 1 row of a function code. *)
Definition table1_base (m : MessageType.t) : option Z :=
  match m with
  | MessageType.NMT => Some 0x000
  | MessageType.SYNC => Some 0x001
  | MessageType.EMER => Some 0x080
  | MessageType.TIME => Some 0x100
  | MessageType.PDO1_TX => Some 0x180
  | MessageType.PDO1_RX => Some 0x200
  | MessageType.PDO2_TX => Some 0x280
  | MessageType.PDO2_RX => Some 0x300
  | MessageType.PDO3_TX => Some 0x380
  | MessageType.PDO3_RX => Some 0x400
  | MessageType.PDO4_TX => Some 0x480
  | MessageType.PDO4_RX => Some 0x500
  | MessageType.SDO_TX => Some 0x580
  | MessageType.SDO_RX => Some 0x600
  | MessageType.HEARTBEAT => Some 0x700
  | MessageType.UKNOWN => None
  end.


(** ** The wall clock

    [datetime.datetime.now()] is the one effect of [canmsg.py].  The clock
    is the sequence of its readings, in microseconds: the call number [k]
    of a run returns [readings k].  A computation that reads the clock
    threads the number of calls made so far. *)

Module Clock.

Definition readings : Type := nat -> Z.

Definition M (A : Type) : Type := readings -> nat -> A * nat.

Definition ret {A : Type} (a : A) : M A := fun _ k => (a, k).

Definition bind {A B : Type} (m : M A) (f : A -> M B) : M B :=
  fun clk k => let (a, k') := m clk k in f a clk k'.

(** [datetime.datetime.now()] *)
Definition now : M Z := fun clk k => (clk k, S k).

(** The result of a computation started at call number [k]. *)
Definition result {A : Type} (m : M A) (clk : readings) (k : nat) : A :=
  fst (m clk k).

(** A clock that stands still at [t] for the length of a call. *)
Definition frozen (t : Z) : readings := fun _ => t.

End Clock.

(** ** Python floats

    [int / int] is the quotient rounded to the nearest binary64 number,
    ties to the even mantissa.  The exponent range is left out: the
    quotients that occur, microseconds of a [timedelta] over [10 ** 6],
    lie between [10 ** -6] and [10 ** 14] in magnitude, where no binary64
    overflows or is subnormal. *)

Module Float.

(** The integer nearest to [n / d], the even one of two that are equally
    near; [0 < d]. *)
Definition nearest_even (n d : Z) : Z :=
  let q := n / d in
  match 2 * (n mod d) ?= d with
  | Lt => q
  | Gt => q + 1
  | Eq => if Z.even q then q else q + 1
  end.

(** The integer part of the binary logarithm of [n / d]; [0 < n] and
    [0 < d]. *)
Definition ilog2 (n d : Z) : Z :=
  let k := Z.log2 d + 1 in
  Z.log2 (n * 2 ^ k / d) - k.

(** [n / d] for [0 < n] and [0 < d]: a mantissa [m] of 53 bits and an
    exponent [e], the number [m * 2 ^ e]. *)
Definition round_pos (n d : Z) : Q :=
  let e := ilog2 n d - 52 in
  let m := nearest_even (n * 2 ^ Z.max 0 (- e)) (d * 2 ^ Z.max 0 e) in
  (m * 2 ^ Z.max 0 e) # Z.to_pos (2 ^ Z.max 0 (- e)).

(** [n / d] on [int]s, [0 < d]. *)
Definition true_divide (n d : Z) : Q :=
  match n with
  | 0 => 0
  | Zpos _ => round_pos n d
  | Zneg p => - round_pos (Zpos p) d
  end.

End Float.

(** ** [class CANMsg(pc.Frame)] *)

Module CANMsg.

(** The attributes of a [pyvit.can.Frame] that [__init__] reads. *)
Record Frame : Type := {
  src_arb_id : Z;
  src_data : list Z;
  src_frame_type : Z;
  src_is_extended_id : bool }.

(** The attributes [pyvit.can.Frame.__init__] leaves in the object it
    initialises. *)
Record Base : Type := {
  base_arb_id : Z;
  base_data : list Z;
  base_frame_type : Z;
  base_interface : string;
  base_timestamp : Z;
  base_is_extended_id : bool }.

Record t : Type := {
  arb_id : Z;
  data : list Z;
  frame_type : Z;
  interface : string;
  timestamp : Z;
  extended : bool;
  message_type : MessageType.t;
  stale_timeout : Z;
  dead_timeout : Z;
  node_name : string }.

(** Python's [hex] on an [int]. *)
Definition hex (n : Z) : string :=
  ((if (n <? 0)%Z then "-0x" else "0x")
     ++ NilZero.string_of_uint (N.to_hex_uint (Z.abs_N n)))%string.

Section Init.

(** [pc.Frame.__init__(arb_id, data, frame_type, interface, timestamp,
    extended)], the constructor of the base class: it belongs to pyvit, and
    the embedding is over any behaviour of it, raising included. *)
Variable Frame___init__ :
  Z -> list Z -> Z -> string -> Z -> bool -> outcome Base.

(** [__init__(self, src, interface, stale_timeout=6, dead_timeout=12)];
    an omitted keyword argument is [None] here.  The clock is read for the
    argument [timestamp] before the base constructor runs; the body can
    raise in that constructor and in the member lookup inside
    [cob_id_to_type]. *)
Definition __init__ (src : Frame) (interface : string)
    (stale_timeout dead_timeout : option Z) : Clock.M (outcome t) :=
  Clock.bind Clock.now (fun now =>
  Clock.ret (
    base <- Frame___init__ (src_arb_id src) (src_data src)
              (src_frame_type src) interface now (src_is_extended_id src) ;;
    mt <- MessageType.cob_id_to_type (src_arb_id src) ;;
    Returns {| arb_id := base_arb_id base;
               data := base_data base;
               frame_type := base_frame_type base;
               interface := base_interface base;
               timestamp := base_timestamp base;
               extended := base_is_extended_id base;
               message_type := mt;
               stale_timeout := match stale_timeout with
                                | Some s => s | None => 6 end;
               dead_timeout := match dead_timeout with
                               | Some d => d | None => 12 end;
               node_name := hex (base_arb_id base) |})).

End Init.

(** [timedelta.total_seconds()]: a difference of [us] microseconds, in
    seconds: the [float] of [us / 10 ** 6]. *)
Definition total_seconds (us : Z) : Q := Float.true_divide us 1000000.

(** [x >= y] for a [float] [x] and an [int] [y]; Python compares the two
    numbers exactly. *)
Definition ge_seconds (x : Q) (y : Z) : bool := Qle_bool (inject_Z y) x.

Definition is_stale (self : t) : Clock.M bool :=
  Clock.bind Clock.now (fun now =>
  Clock.ret (ge_seconds (total_seconds (now - timestamp self))
                        (stale_timeout self))).

Definition is_dead (self : t) : Clock.M bool :=
  Clock.bind Clock.now (fun now =>
  Clock.ret (ge_seconds (total_seconds (now - timestamp self))
                        (dead_timeout self))).

Definition status (self : t) : Clock.M string :=
  Clock.bind (is_dead self) (fun dead =>
  if dead then Clock.ret "DEAD"%string
  else Clock.bind (is_stale self) (fun stale =>
       if stale then Clock.ret "STALE"%string
       else Clock.ret "ALIVE"%string)).

(** [__le__] *)
Definition le (self operand : t) : bool := arb_id self <=? arb_id operand.

End CANMsg.

(** ** Liveness as the specification words it *)

Inductive LivenessState : Set := ALIVE | STALE | DEAD.

Definition severity (s : LivenessState) : nat :=
  match s with ALIVE => 0 | STALE => 1 | DEAD => 2 end%nat.

(** The string [CANMsg.status] returns for a state. *)
Definition state_name (s : LivenessState) : string :=
  match s with ALIVE => "ALIVE" | STALE => "STALE" | DEAD => "DEAD" end.

(** The state a status string names; any other string names none. *)
Definition state_of_name (s : string) : option LivenessState :=
  if String.eqb s "ALIVE" then Some ALIVE
  else if String.eqb s "STALE" then Some STALE
  else if String.eqb s "DEAD" then Some DEAD
  else None.

(** [DEAD] if [now - timestamp >= dead_timeout]; else [STALE] if
    [now - timestamp >= stale_timeout]; else [ALIVE].  Times in
    microseconds, thresholds in seconds. *)
Definition liveness (timestamp stale_timeout dead_timeout now : Z)
  : LivenessState :=
  if dead_timeout * 1000000 <=? now - timestamp then DEAD
  else if stale_timeout * 1000000 <=? now - timestamp then STALE
  else ALIVE.

Definition seconds (s : Z) : Z := s * 1000000.

(** ** [class CANOpenParser] *)

Module CANOpenParser.

(** The sub-protocol decoders live in modules of their own
    ([parser/sync.py], [emcy.py], [pdo.py], [hb.py], [sdo.py]); the
    dispatcher is embedded over any implementation of them.  [eds] is the
    type of an object-dictionary entry and [sdo_state] the state of the
    one [SDOParser] instance the dispatcher keeps. *)
Record Decoders (eds sdo_state : Type) : Type := {
  SYNCParser_parse : list Z -> outcome string;
  EMCYParser_parse : list Z -> outcome string;
  PDOParser_parse : Z -> eds -> list Z -> outcome string;
  HBParser_parse : list Z -> outcome string;
  SDOParser_new : sdo_state;
  SDOParser_parse :
    sdo_state -> Z -> eds -> list Z -> outcome string * sdo_state }.
Arguments SYNCParser_parse {eds sdo_state} _ _.
Arguments EMCYParser_parse {eds sdo_state} _ _.
Arguments PDOParser_parse {eds sdo_state} _ _ _ _.
Arguments HBParser_parse {eds sdo_state} _ _.
Arguments SDOParser_new {eds sdo_state} _.
Arguments SDOParser_parse {eds sdo_state} _ _ _ _ _.

Record t (eds sdo_state : Type) : Type := {
  sdo : sdo_state;
  eds_configs : list (list eds) }.
Arguments sdo {eds sdo_state} _.
Arguments eds_configs {eds sdo_state} _.

(** [l[0]] *)
Definition first {A : Type} (l : list A) : outcome A :=
  match l with
  | x :: _ => Returns x
  | [] => Raises IndexError
  end.

Section Dispatch.
Context {eds sdo_state : Type}.
Variable D : Decoders eds sdo_state.

Definition __init__ (eds_configs : list (list eds)) : t eds sdo_state :=
  {| sdo := SDOParser_new D; eds_configs := eds_configs |}.

(** [parse(self, cob_id, data)]: the response, and the dispatcher after
    the call (only the SDO decoder changes it). *)
Definition parse (self : t eds sdo_state) (cob_id : Z) (data : list Z)
  : outcome string * t eds sdo_state :=
  if cob_id <=? 0x80 then
    (SYNCParser_parse D data, self)
  else if (cob_id >=? 0x80) && (cob_id <? 0x180) then
    (EMCYParser_parse D data, self)
  else if (cob_id >=? 0x180) && (cob_id <? 0x580) then
    (row <- first (eds_configs self) ;;
     e <- first row ;;
     PDOParser_parse D cob_id e data, self)
  else if (cob_id >=? 0x580) && (cob_id <? 0x700) then
    match (row <- first (eds_configs self) ;; first row) with
    | Returns e =>
        let (response, sdo') := SDOParser_parse D (sdo self) cob_id e data in
        (response, {| sdo := sdo'; eds_configs := eds_configs self |})
    | Raises x => (Raises x, self)
    end
  else if (cob_id >=? 0x700) && (cob_id <? 0x7E4) then
    (HBParser_parse D data, self)
  else
    (Returns "BAD PARSE"%string, self).
End Dispatch.

(** Decoders that answer with their own name (and, for PDO and SDO, the
    dictionary entry they were handed): an instance on which the route a
    frame took can be read off the response. *)
Definition naming : Decoders string unit :=
  {| SYNCParser_parse := fun _ => Returns "SYNC"%string;
     EMCYParser_parse := fun _ => Returns "EMCY"%string;
     PDOParser_parse := fun _ e _ => Returns ("PDO with " ++ e)%string;
     HBParser_parse := fun _ => Returns "HB"%string;
     SDOParser_new := tt;
     SDOParser_parse := fun s _ e _ => (Returns ("SDO with " ++ e)%string, s) |}.

End CANOpenParser.

(** ** [class MagicCANBus] *)

Module MagicCANBus.

(** The handle of a channel, an object of class [Interface].  The class
    is not part of the sources: what the channel does (whether it is up,
    what [recv] yields, which calls raise) is the environment's choice and
    appears in the [event]s below, and its constructor is an argument of
    [__init__]. *)
Record Interface : Type := { name : string }.

(** [threading.Thread(target=self.handler, name=..., args=[iface])] *)
Record Thread : Type := {
  thread_name : string;
  args : Interface }.

Section Bus.
(** The frames [iface.recv()] yields ([.message.Message]). *)
Context {Message : Type}.

Record t : Type := {
  interfaces : list Interface;
  keep_alive : bool;
  message_queue : list Message;
  threads : option (list Thread) }.

(** [list(map(lambda x: Interface(x), if_names))]: the handles in the
    order of the names; the first constructor call that raises ends the
    evaluation. *)
Fixpoint construct (new_Interface : string -> outcome Interface)
    (if_names : list string) : outcome (list Interface) :=
  match if_names with
  | [] => Returns []
  | x :: rest =>
      iface <- new_Interface x ;;
      ifaces <- construct new_Interface rest ;;
      Returns (iface :: ifaces)
  end.

(** [__init__(self, if_names)], over the constructor [Interface]. *)
Definition __init__ (new_Interface : string -> outcome Interface)
    (if_names : list string) : outcome t :=
  ifaces <- construct new_Interface if_names ;;
  Returns {| interfaces := ifaces;
             keep_alive := true;
             message_queue := [];
             threads := None |}.

Definition start_handler (iface : Interface) : Thread :=
  {| thread_name := ("canopem-monitor-" ++ name iface)%string;
     args := iface |}.

Definition __enter__ (self : t) : t :=
  {| interfaces := interfaces self;
     keep_alive := keep_alive self;
     message_queue := message_queue self;
     threads := Some (map start_handler (interfaces self)) |}.

(** *** The handler, as a machine

    The control points of [handler] are the places where it is about
    to make a call or read a flag; an [event] is such a call together
    with what came back. *)
Inductive pc : Type :=
| AtStart                (* iface.start()                       l.32 *)
| AtOuterCheck           (* while(self.keep_alive.is_set())     l.37 *)
| AtInnerCheck           (* while(self.keep_alive.is_set() ...  l.44 *)
| AtIsUp                 (*        ... and iface.is_up)         l.44 *)
| AtRecv                 (* frame = iface.recv()                l.45 *)
| AtPut (frame : Message)(* self.message_queue.put(frame, ...)  l.47 *)
| AtRestart              (* iface.restart()                     l.48 *)
| AtRestartExc           (* except OSError: iface.restart()     l.50 *)
| AtStop                 (* iface.stop()                        l.51 *)
| Exited                 (* the handler returned                     *)
| Died.                  (* an exception left the handler            *)

Inductive event : Type :=
| Call_start (r : outcome unit)
| Read_keep_alive (b : bool)
| Read_is_up (r : outcome bool)
| Call_recv (r : outcome (option Message))
| Call_put
| Call_restart (r : outcome unit)
| Call_stop (r : outcome unit).

(** Where an exception raised inside the [try] block leads. *)
Definition in_try (e : exn) : pc :=
  match e with
  | OSError => AtRestartExc
  | _ => Died
  end.

Definition step (p : pc) (ev : event) : option pc :=
  match p, ev with
  | AtStart, Call_start (Returns _) => Some AtOuterCheck
  | AtStart, Call_start (Raises _) => Some Died
  | AtOuterCheck, Read_keep_alive true => Some AtInnerCheck
  | AtOuterCheck, Read_keep_alive false => Some AtStop
  | AtInnerCheck, Read_keep_alive true => Some AtIsUp
  | AtInnerCheck, Read_keep_alive false => Some AtRestart
  | AtIsUp, Read_is_up (Returns true) => Some AtRecv
  | AtIsUp, Read_is_up (Returns false) => Some AtRestart
  | AtIsUp, Read_is_up (Raises e) => Some (in_try e)
  | AtRecv, Call_recv (Returns (Some frame)) => Some (AtPut frame)
  | AtRecv, Call_recv (Returns None) => Some AtInnerCheck
  | AtRecv, Call_recv (Raises e) => Some (in_try e)
  | AtPut _, Call_put => Some AtInnerCheck
  | AtRestart, Call_restart (Returns _) => Some AtOuterCheck
  | AtRestart, Call_restart (Raises e) => Some (in_try e)
  | AtRestartExc, Call_restart (Returns _) => Some AtOuterCheck
  | AtRestartExc, Call_restart (Raises _) => Some Died
  | AtStop, Call_stop (Returns _) => Some Exited
  | AtStop, Call_stop (Raises _) => Some Died
  | _, _ => None
  end.

(** The control point a run of events leads to; [None] when the
    handler cannot produce that run. *)
Fixpoint run (p : pc) (tr : list event) : option pc :=
  match tr with
  | [] => Some p
  | ev :: tr' =>
      match step p ev with
      | Some p' => run p' tr'
      | None => None
      end
  end.

Definition terminated (p : pc) : bool :=
  match p with
  | Exited | Died => true
  | _ => false
  end.



(** An event in which a call raised. *)
Definition raised (ev : event) : bool :=
  match ev with
  | Call_start (Raises _) | Read_is_up (Raises _)
  | Call_recv (Raises _) | Call_restart (Raises _)
  | Call_stop (Raises _) => true
  | _ => false
  end.

Definition count (f : event -> bool) (tr : list event) : nat :=
  List.length (filter f tr).

(** One round of the loop in which [recv] fails: the flag is set at
    both checks, the channel is up, [recv] raises, [restart] returns. *)
Definition failing_round : list event :=
  [ Read_keep_alive true; Read_keep_alive true; Read_is_up (Returns true);
    Call_recv (Raises OSError); Call_restart (Returns tt) ].

Fixpoint rounds (n : nat) : list event :=
  match n with
  | O => []
  | S n' => failing_round ++ rounds n'
  end.

(** *** [__next__]

    [queue.SimpleQueue.get(block=True)] hands out the oldest item and
    waits while there is none; [None] stands for the wait. *)
Definition get_block (q : list Message) : option (Message * list Message) :=
  match q with
  | m :: q' => Some (m, q')
  | [] => None
  end.

Definition put (q : list Message) (m : Message) : list Message := q ++ [m].

(** [arrived] are the frames the workers enqueue between the call of
    [empty()] and the call of [get]. *)
Definition __next__ (self : t) (arrived : list Message)
  : option (outcome Message * t) :=
  match message_queue self with
  | [] => Some (Raises StopIteration, self)
  | _ :: _ =>
      match get_block (fold_left put arrived (message_queue self)) with
      | Some (m, q') =>
          Some (Returns m,
                {| interfaces := interfaces self;
                   keep_alive := keep_alive self;
                   message_queue := q';
                   threads := threads self |})
      | None => None
      end
  end.

(** *** The bus with its threads

    The state shared by the threads is the bus object; [control] holds
    the control point of each thread of [self.threads], and [main] that
    of the thread that owns the [with] block.  A step of the whole is a
    step of one thread: a worker makes a step of [handler], reading the
    flag of the bus and appending to its queue, or the owner of the block
    makes a step of [__next__] or of [__exit__].  [tr.join()] is a step
    that can be made only when thread [tr] has ended; the [print] before
    it changes nothing and is left out. *)
Inductive main_pc : Type :=
| InWith                 (* inside the with block                     *)
| InNext                 (* in __next__, empty() was False       l.73 *)
| Joining (k : nat)      (* in __exit__, about to join thread k  l.65 *)
| Left.                  (* __exit__ returned                         *)

Record world : Type := {
  bus : t;
  control : list pc;
  main : main_pc }.

Definition with_keep_alive (b : bool) (self : t) : t :=
  {| interfaces := interfaces self;
     keep_alive := b;
     message_queue := message_queue self;
     threads := threads self |}.

Definition with_queue (q : list Message) (self : t) : t :=
  {| interfaces := interfaces self;
     keep_alive := keep_alive self;
     message_queue := q;
     threads := threads self |}.

Fixpoint update {A : Type} (i : nat) (x : A) (l : list A) : list A :=
  match l, i with
  | [], _ => []
  | _ :: l', O => x :: l'
  | y :: l', S i' => y :: update i' x l'
  end.

(** The world right after [__enter__]: every thread is started and
    stands at the first line of [handler]. *)
Definition entered (self : t) : world :=
  {| bus := __enter__ self;
     control := map (fun _ => AtStart) (interfaces self);
     main := InWith |}.

(** What an event of a worker needs of the shared state. *)
Definition agrees (self : t) (ev : event) : Prop :=
  match ev with
  | Read_keep_alive b => b = keep_alive self
  | _ => True
  end.

(** What a step of a worker does to the shared state. *)
Definition effect (p : pc) (self : t) : t :=
  match p with
  | AtPut frame => with_queue (put (message_queue self) frame) self
  | _ => self
  end.

Inductive wstep : world -> world -> Prop :=
(* thread i of self.threads makes one step of handler *)
| worker_step w i p ev p' :
    nth_error (control w) i = Some p ->
    step p ev = Some p' ->
    agrees (bus w) ev ->
    wstep w {| bus := effect p (bus w);
               control := update i p' (control w);
               main := main w |}
(* __next__: empty() is True, StopIteration *)
| next_empty w :
    main w = InWith ->
    message_queue (bus w) = [] ->
    wstep w w
(* __next__: empty() is False *)
| next_check w :
    main w = InWith ->
    message_queue (bus w) <> [] ->
    wstep w {| bus := bus w; control := control w; main := InNext |}
(* __next__: get(block=True) hands out the oldest frame *)
| next_get w m q' :
    main w = InNext ->
    get_block (message_queue (bus w)) = Some (m, q') ->
    wstep w {| bus := with_queue q' (bus w);
               control := control w;
               main := InWith |}
(* __exit__: self.keep_alive.clear() *)
| exit_clear w :
    main w = InWith ->
    wstep w {| bus := with_keep_alive false (bus w);
               control := control w;
               main := Joining 0 |}
(* __exit__: tr.join() returns once thread k has ended *)
| exit_join w k p :
    main w = Joining k ->
    nth_error (control w) k = Some p ->
    terminated p = true ->
    wstep w {| bus := bus w; control := control w; main := Joining (S k) |}
(* __exit__: the loop over self.threads is over *)
| exit_return w k :
    main w = Joining k ->
    k = List.length (control w) ->
    wstep w {| bus := bus w; control := control w; main := Left |}.

Inductive reachable (self : t) : world -> Prop :=
| reach_entered : reachable self (entered self)
| reach_step w w' : reachable self w -> wstep w w' -> reachable self w'.





(** The first [k] threads of [self.threads] have ended. *)
Definition joined (w : world) (k : nat) : Prop :=
  forall j p, (j < k)%nat -> nth_error (control w) j = Some p ->
              terminated p = true.

(** What holds of the bus while [__exit__] runs. *)
Definition shutdown_inv (self : t) (w : world) : Prop :=
  List.length (control w) = List.length (interfaces self)
  /\ match main w with
     | InWith | InNext => True
     | Joining k =>
         keep_alive (bus w) = false
         /\ (k <= List.length (control w))%nat
         /\ joined w k
     | Left =>
         keep_alive (bus w) = false
         /\ joined w (List.length (control w))
     end.

End Bus.
Arguments t : clear implicits.
Arguments pc : clear implicits.
Arguments event : clear implicits.
Arguments world : clear implicits.

End MagicCANBus.

(** ** Sample inputs *)

(** A heartbeat of node 1 read off [can0] at the first second of the clock,
    with the default thresholds. *)
Definition sample_msg : CANMsg.t :=
  {| CANMsg.arb_id := 0x701;
     CANMsg.data := [5];
     CANMsg.frame_type := 1;
     CANMsg.interface := "can0";
     CANMsg.timestamp := seconds 1;
     CANMsg.extended := false;
     CANMsg.message_type := MessageType.HEARTBEAT;
     CANMsg.stale_timeout := 6;
     CANMsg.dead_timeout := 12;
     CANMsg.node_name := "0x701" |}.

Definition sample_frame : CANMsg.Frame :=
  {| CANMsg.src_arb_id := 0x701;
     CANMsg.src_data := [5];
     CANMsg.src_frame_type := 1;
     CANMsg.src_is_extended_id := false |}.

(** A base constructor for the examples: it keeps its arguments, and
    refuses, as pyvit does, an identifier that does not fit the frame: 11
    bits, or 29 bits for an extended frame. *)
Definition sample_Frame___init__ (arb_id : Z) (data : list Z)
    (frame_type : Z) (interface : string) (timestamp : Z) (extended : bool)
  : outcome CANMsg.Base :=
  if (0 <=? arb_id)
     && ((arb_id <=? 0x7FF) || (extended && (arb_id <=? 0x1FFFFFFF)))
  then Returns {| CANMsg.base_arb_id := arb_id;
                  CANMsg.base_data := data;
                  CANMsg.base_frame_type := frame_type;
                  CANMsg.base_interface := interface;
                  CANMsg.base_timestamp := timestamp;
                  CANMsg.base_is_extended_id := extended |}
  else Raises ValueError.

(** A frame the base constructor refuses. *)
Definition sample_refused_frame : CANMsg.Frame :=
  {| CANMsg.src_arb_id := 0x800;
     CANMsg.src_data := [5];
     CANMsg.src_frame_type := 1;
     CANMsg.src_is_extended_id := false |}.

(** An [Interface] constructor for the examples: a handle for every name
    but the empty one. *)
Definition sample_Interface (x : string) : outcome MagicCANBus.Interface :=
  if String.eqb x "" then Raises OSError
  else Returns {| MagicCANBus.name := x |}.

(** A message that dies after 20 000 000 000 seconds. *)
Definition sample_long_lived : CANMsg.t :=
  {| CANMsg.arb_id := 0x701;
     CANMsg.data := [5];
     CANMsg.frame_type := 1;
     CANMsg.interface := "can0";
     CANMsg.timestamp := 0;
     CANMsg.extended := false;
     CANMsg.message_type := MessageType.HEARTBEAT;
     CANMsg.stale_timeout := 6;
     CANMsg.dead_timeout := 20000000000;
     CANMsg.node_name := "0x701" |}.

(** A dispatcher over the [naming] decoders with three dictionary entries
    configured. *)
Definition sample_parser : CANOpenParser.t string unit :=
  CANOpenParser.__init__ CANOpenParser.naming
    [ ["node1.eds"; "node2.eds"]; ["node3.eds"] ]%string.

(** A worker whose [recv] fails three times in a row before the flag is
    cleared. *)
Definition sample_run : list (MagicCANBus.event Z) :=
  MagicCANBus.Call_start (Returns tt)
    :: MagicCANBus.rounds 3
    ++ [ MagicCANBus.Read_keep_alive false; MagicCANBus.Call_stop (Returns tt) ].


(** A bus over two channels with two frames pending. *)
Definition sample_bus : MagicCANBus.t Z :=
  {| MagicCANBus.interfaces :=
       [ {| MagicCANBus.name := "can0" |}; {| MagicCANBus.name := "vcan0" |} ];
     MagicCANBus.keep_alive := true;
     MagicCANBus.message_queue := [0x701; 0x181];
     MagicCANBus.threads := None |}.

(** The world of [sample_bus] once [__exit__] has returned, both workers
    having left their handler. *)
Definition sample_left : MagicCANBus.world Z :=
  {| MagicCANBus.bus :=
       MagicCANBus.with_keep_alive false (MagicCANBus.__enter__ sample_bus);
     MagicCANBus.control := [MagicCANBus.Exited; MagicCANBus.Exited];
     MagicCANBus.main := MagicCANBus.Left |}.

(** The world of [sample_bus] as [__exit__] starts to join, both workers
    having left their handler. *)
Definition sample_joining : MagicCANBus.world Z :=
  {| MagicCANBus.bus :=
       MagicCANBus.with_keep_alive false (MagicCANBus.__enter__ sample_bus);
     MagicCANBus.control := [MagicCANBus.Exited; MagicCANBus.Exited];
     MagicCANBus.main := MagicCANBus.Joining 0 |}.


(** The world of [sample_bus] inside [__next__], between [empty()] and
    [get]. *)
Definition sample_in_next : MagicCANBus.world Z :=
  {| MagicCANBus.bus := MagicCANBus.__enter__ sample_bus;
     MagicCANBus.control := [MagicCANBus.AtStart; MagicCANBus.AtStart];
     MagicCANBus.main := MagicCANBus.InNext |}.

(** What the specification asks of the construction input. *)
Definition valid_if_names (if_names : list string) : Prop :=
  if_names <> [] /\ NoDup if_names.

Definition valid_thresholds (stale_timeout dead_timeout : Z) : Prop :=
  stale_timeout <= dead_timeout.

(** * Further code *)

(** ** [class Pane(ABC)]  ([canopen_monitor/ui/pane.py])

    The pane keeps its geometry and scroll state in attributes and draws
    through two curses objects, its pad and its parent window.  The calls
    it makes on them are recorded in the order made; of the objects
    themselves the embedding keeps what the pane reads back or sets: the
    size of the parent ([getmaxyx()]) and the size of the pad.  The
    window and the pad are made by curses, which may raise instead; the
    methods of a pane that exists are embedded for the calls curses
    accepts. *)

Module Pane.

Inductive call : Type :=
| Newwin (nlines ncols : Z)
| Newpad (nlines ncols : Z)
| Pad_scrollok (flag : bool)
| Pad_resize (nlines ncols : Z)
| Pad_attron (attr : Z)
| Pad_attroff (attr : Z)
| Pad_box
| Pad_clear
| Pad_move (y x : Z)
| Pad_clrtoeol
| Pad_addstr (y x : Z) (line : string)
| Pad_refresh (pminrow pmincol sminrow smincol smaxrow smaxcol : Z)
| Parent_clear
| Parent_attron (attr : Z).

Record t : Type := {
  v_height : Z;
  v_width : Z;
  parent : Z * Z;            (* self.parent, as its getmaxyx() *)
  _pad : Z * Z;              (* self._pad, as its size         *)
  d_height : Z;
  d_width : Z;
  border : bool;
  selected : bool;
  _style : Z;
  needs_refresh : bool;
  scroll_position_y : Z;
  scroll_position_x : Z;
  scroll_limit_y : Z;
  scroll_limit_x : Z }.

Definition set_virtual (height width : Z) (self : t) : t :=
  {| v_height := height; v_width := width;
     parent := parent self; _pad := _pad self;
     d_height := d_height self; d_width := d_width self;
     border := border self; selected := selected self;
     _style := _style self; needs_refresh := needs_refresh self;
     scroll_position_y := scroll_position_y self;
     scroll_position_x := scroll_position_x self;
     scroll_limit_y := scroll_limit_y self;
     scroll_limit_x := scroll_limit_x self |}.

Definition set_pad (size : Z * Z) (self : t) : t :=
  {| v_height := v_height self; v_width := v_width self;
     parent := parent self; _pad := size;
     d_height := d_height self; d_width := d_width self;
     border := border self; selected := selected self;
     _style := _style self; needs_refresh := needs_refresh self;
     scroll_position_y := scroll_position_y self;
     scroll_position_x := scroll_position_x self;
     scroll_limit_y := scroll_limit_y self;
     scroll_limit_x := scroll_limit_x self |}.

Definition set_drawn (height width : Z) (self : t) : t :=
  {| v_height := v_height self; v_width := v_width self;
     parent := parent self; _pad := _pad self;
     d_height := height; d_width := width;
     border := border self; selected := selected self;
     _style := _style self; needs_refresh := needs_refresh self;
     scroll_position_y := scroll_position_y self;
     scroll_position_x := scroll_position_x self;
     scroll_limit_y := scroll_limit_y self;
     scroll_limit_x := scroll_limit_x self |}.

Definition set_needs_refresh (b : bool) (self : t) : t :=
  {| v_height := v_height self; v_width := v_width self;
     parent := parent self; _pad := _pad self;
     d_height := d_height self; d_width := d_width self;
     border := border self; selected := selected self;
     _style := _style self; needs_refresh := b;
     scroll_position_y := scroll_position_y self;
     scroll_position_x := scroll_position_x self;
     scroll_limit_y := scroll_limit_y self;
     scroll_limit_x := scroll_limit_x self |}.

Definition set_scroll_y (y : Z) (self : t) : t :=
  {| v_height := v_height self; v_width := v_width self;
     parent := parent self; _pad := _pad self;
     d_height := d_height self; d_width := d_width self;
     border := border self; selected := selected self;
     _style := _style self; needs_refresh := needs_refresh self;
     scroll_position_y := y;
     scroll_position_x := scroll_position_x self;
     scroll_limit_y := scroll_limit_y self;
     scroll_limit_x := scroll_limit_x self |}.

Definition set_scroll_x (x : Z) (self : t) : t :=
  {| v_height := v_height self; v_width := v_width self;
     parent := parent self; _pad := _pad self;
     d_height := d_height self; d_width := d_width self;
     border := border self; selected := selected self;
     _style := _style self; needs_refresh := needs_refresh self;
     scroll_position_y := scroll_position_y self;
     scroll_position_x := x;
     scroll_limit_y := scroll_limit_y self;
     scroll_limit_x := scroll_limit_x self |}.

(** [__reset_draw_dimensions] *)
Definition reset_draw_dimensions (self : t) : t :=
  let (p_height, p_width) := parent self in
  set_drawn (Z.min (v_height self) (p_height - 1))
            (Z.min (v_width self) (p_width - 1)) self.

Section Curses.
(** [curses.color_pair], [curses.A_BOLD] and [curses.A_REVERSE] are the
    library's. *)
Variable color_pair : Z -> Z.
Variables A_BOLD A_REVERSE : Z.

(** So are [curses.newwin] and [curses.newpad], which make a window or
    raise [curses.error]: [newwin nlines ncols] is the size of the window
    made, which is the rest of the screen when a size of zero is asked
    for, and [newpad nlines ncols] tells whether a pad of that size is
    made. *)
Variable newwin : Z -> Z -> outcome (Z * Z).
Variable newpad : Z -> Z -> outcome unit.

(** [__init__(self, parent=None, height=1, width=1, border=True,
    color_pair=0)]; a parent is given as its size.  The window is made
    only when no parent is given, and before the pad. *)
Definition __init__ (parent : option (Z * Z)) (height width : Z)
    (border : bool) (pair : Z) : outcome (t * list call) :=
  made <- match parent with
          | Some p => Returns (p, [])
          | None =>
              p <- newwin height width ;;
              Returns (p, [Newwin height width])
          end ;;
  _ <- newpad height width ;;
  Returns
    (reset_draw_dimensions
       {| v_height := height; v_width := width;
          parent := fst made; _pad := (height, width);
          d_height := 0; d_width := 0;
          border := border; selected := false;
          _style := color_pair pair; needs_refresh := false;
          scroll_position_y := 0; scroll_position_x := 0;
          scroll_limit_y := 0; scroll_limit_x := 0 |},
     snd made ++ [Newpad height width; Pad_scrollok true]).


(** [resize(self, height, width)].  The call of [_pad.resize] comes last;
    curses accepts a size that is positive, and the embedding is of the
    call it accepts. *)
Definition resize (height width : Z) (self : t) : t * list call :=
  (set_pad (height, width)
     (reset_draw_dimensions (set_virtual height width self)),
   [Pad_resize height width]).

Definition refresh (self : t) : t * list call :=
  (set_needs_refresh false self,
   [Pad_refresh 0 0 0 0 (d_height self) (d_width self)]).

Definition box (self : t) : list call :=
  if border self then [Pad_box] else [].

Definition draw (self : t) : t * list call :=
  let (self1, calls1) :=
    if needs_refresh self then refresh self else (self, []) in
  (self1,
   calls1 ++ [Parent_attron (_style self1); Pad_attron (_style self1)]
          ++ box self1).

Definition clear (self : t) : t * list call :=
  let (self1, calls1) := refresh self in
  (self1, [Pad_clear; Parent_clear] ++ calls1).

(** [style or curses.color_pair(0)]: [None] and [0] are falsy. *)
Definition style_or_default (style : option Z) : Z :=
  match style with
  | Some s => if s =? 0 then color_pair 0 else s
  | None => color_pair 0
  end.

Definition clear_line (y : Z) (style : option Z) (self : t) : list call :=
  let style := style_or_default style in
  [ Pad_attron (Z.lor (_style self) style);
    Pad_move y 0;
    Pad_clrtoeol;
    Pad_attroff (Z.lor (_style self) style) ]
  ++ box self.

(** The four scroll methods return the flag and the pane after the
    call. *)
Definition scroll_up (rate : Z) (self : t) : bool * t :=
  let y := scroll_position_y self - rate in
  if y <? 0 then (false, set_scroll_y 0 self) else (true, set_scroll_y y self).

Definition scroll_down (rate : Z) (self : t) : bool * t :=
  let y := scroll_position_y self + rate in
  if y >? scroll_limit_y self
  then (false, set_scroll_y (scroll_limit_y self) self)
  else (true, set_scroll_y y self).

Definition scroll_left (rate : Z) (self : t) : bool * t :=
  let x := scroll_position_x self - rate in
  if x <? 0 then (false, set_scroll_x 0 self) else (true, set_scroll_x x self).

Definition scroll_right (rate : Z) (self : t) : bool * t :=
  let x := scroll_position_x self + rate in
  if x >? scroll_limit_x self
  then (false, set_scroll_x (scroll_limit_x self) self)
  else (true, set_scroll_x x self).

(** [len(line)] *)
Definition len (line : string) : Z := Z.of_nat (String.length line).

Definition add_line (y x : Z) (line : string) (bold highlight : bool)
    (self : t) : t * list call :=
  let new_width := len line + x in
  let (self1, calls1) :=
    if new_width >? v_width self
    then resize (v_height self) new_width self
    else (self, []) in
  let (self2, calls2) :=
    if y >? v_height self1
    then resize (y + 1) (v_width self1) self1
    else (self1, []) in
  (self2,
   calls1 ++ calls2
   ++ (if bold then [Pad_attron (Z.lor (_style self2) A_BOLD)] else [])
   ++ (if highlight then [Pad_attron (Z.lor (_style self2) A_REVERSE)] else [])
   ++ (if y <? d_height self2 then [Pad_addstr y x line] else [])
   ++ (if bold then [Pad_attroff (Z.lor (_style self2) A_BOLD)] else [])
   ++ (if highlight then [Pad_attroff (Z.lor (_style self2) A_REVERSE)]
       else [])).

End Curses.

(** The text [addstr(y, x, line)] lies inside a pad of the given size. *)
Definition inside (size : Z * Z) (c : call) : Prop :=
  match c with
  | Pad_addstr y x line =>
      0 <= y < fst size /\ 0 <= x /\ x + len line <= snd size
  | _ => True
  end.

(** The pad has the virtual size of the pane, and the drawn size exceeds
    neither it nor the parent less one row and one column. *)
Definition geometry (self : t) : Prop :=
  _pad self = (v_height self, v_width self)
  /\ d_height self = Z.min (v_height self) (fst (parent self) - 1)
  /\ d_width self = Z.min (v_width self) (snd (parent self) - 1).

(** The scroll position lies within its limits. *)
Definition in_limits (self : t) : Prop :=
  0 <= scroll_position_y self <= scroll_limit_y self
  /\ 0 <= scroll_position_x self <= scroll_limit_x self.

End Pane.



(** A pane of 10 lines and 20 columns inside a window of 24 by 80. *)
Definition sample_pane : Pane.t :=
  {| Pane.v_height := 10; Pane.v_width := 20;
     Pane.parent := (24, 80); Pane._pad := (10, 20);
     Pane.d_height := 10; Pane.d_width := 20;
     Pane.border := true; Pane.selected := false;
     Pane._style := 1024; Pane.needs_refresh := false;
     Pane.scroll_position_y := 0; Pane.scroll_position_x := 0;
     Pane.scroll_limit_y := 0; Pane.scroll_limit_x := 0 |}.

(** ** Iterating over the bus, and runs of the whole *)

Module BusLoop.
Section Loop.
Context {Message : Type}.

(** [__iter__] *)
Definition __iter__ (self : MagicCANBus.t Message) : MagicCANBus.t Message :=
  self.

(** [for frame in bus: ...].  Each call of [__next__] comes with the
    frames the workers enqueue before it and those they enqueue while it
    runs; the loop yields the frames returned, and ends at the first
    [StopIteration].  The frames enqueued while the call that ends the
    loop runs come after its look at the queue, and stay in the queue.
    The result is the frames yielded, the bus after the last call
    described, and whether the loop has ended. *)
Fixpoint for_each (schedule : list (list Message * list Message))
    (self : MagicCANBus.t Message)
  : list Message * MagicCANBus.t Message * bool :=
  match schedule with
  | [] => ([], self, false)
  | (before, during) :: rest =>
      let self1 :=
        MagicCANBus.with_queue
          (fold_left MagicCANBus.put before (MagicCANBus.message_queue self))
          self in
      match MagicCANBus.__next__ self1 during with
      | Some (Returns m, self2) =>
          let '(yielded, self3, ended) := for_each rest self2 in
          (m :: yielded, self3, ended)
      | Some (Raises _, self2) =>
          ([],
           MagicCANBus.with_queue
             (fold_left MagicCANBus.put during
                (MagicCANBus.message_queue self2))
             self2,
           true)
      | None => ([], self1, false)
      end
  end.

(** The frames enqueued around a call. *)
Definition arrivals (call : list Message * list Message) : list Message :=
  fst call ++ snd call.

(** How many more steps a worker can make at most without reading a set
    flag. *)
Definition remaining (p : MagicCANBus.pc Message) : nat :=
  match p with
  | MagicCANBus.Exited | MagicCANBus.Died => 0
  | MagicCANBus.AtStop => 1
  | MagicCANBus.AtOuterCheck => 2
  | MagicCANBus.AtStart | MagicCANBus.AtRestartExc => 3
  | MagicCANBus.AtRestart => 4
  | MagicCANBus.AtInnerCheck => 5
  | MagicCANBus.AtPut _ => 6
  | MagicCANBus.AtRecv => 7
  | MagicCANBus.AtIsUp => 8
  end.

Definition reads_set_flag (ev : MagicCANBus.event Message) : bool :=
  match ev with MagicCANBus.Read_keep_alive true => true | _ => false end.

Definition is_recv (ev : MagicCANBus.event Message) : bool :=
  match ev with MagicCANBus.Call_recv _ => true | _ => false end.

Definition is_start (ev : MagicCANBus.event Message) : bool :=
  match ev with MagicCANBus.Call_start _ => true | _ => false end.

Definition is_stop (ev : MagicCANBus.event Message) : bool :=
  match ev with MagicCANBus.Call_stop _ => true | _ => false end.

(** The frames [recv] hands over in the course of a run, oldest first. *)
Definition frames_received (tr : list (MagicCANBus.event Message))
  : list Message :=
  flat_map (fun ev => match ev with
                      | MagicCANBus.Call_recv (Returns (Some frame)) => [frame]
                      | _ => []
                      end) tr.

(** The frame a worker holds between [recv] and [put]. *)
Definition held (p : MagicCANBus.pc Message) : list Message :=
  match p with MagicCANBus.AtPut frame => [frame] | _ => [] end.

(** A run of one worker on the bus: every step has its
    [MagicCANBus.effect] on the shared state.  The result is the control
    point reached and the bus as the worker leaves it. *)
Fixpoint run_on (p : MagicCANBus.pc Message) (self : MagicCANBus.t Message)
    (tr : list (MagicCANBus.event Message))
  : option (MagicCANBus.pc Message * MagicCANBus.t Message) :=
  match tr with
  | [] => Some (p, self)
  | ev :: tr' =>
      match MagicCANBus.step p ev with
      | Some p' => run_on p' (MagicCANBus.effect p self) tr'
      | None => None
      end
  end.

(** A call of [recv] that can still come without a set flag being
    read. *)
Definition may_recv (p : MagicCANBus.pc Message) : nat :=
  match p with MagicCANBus.AtRecv | MagicCANBus.AtIsUp => 1 | _ => 0 end.

(** Any number of steps of the bus with its threads. *)
Inductive wsteps : MagicCANBus.world Message -> MagicCANBus.world Message
                   -> Prop :=
| wsteps_refl w : wsteps w w
| wsteps_step w1 w2 w3 :
    MagicCANBus.wstep w1 w2 -> wsteps w2 w3 -> wsteps w1 w3.

End Loop.
End BusLoop.

(** The longest way out of the handler under a cleared flag. *)
Definition sample_last_steps : list (MagicCANBus.event Z) :=
  [ MagicCANBus.Read_is_up (Returns true);
    MagicCANBus.Call_recv (Returns (Some 0x181));
    MagicCANBus.Call_put;
    MagicCANBus.Read_keep_alive false;
    MagicCANBus.Call_restart (Raises OSError);
    MagicCANBus.Call_restart (Returns tt);
    MagicCANBus.Read_keep_alive false;
    MagicCANBus.Call_stop (Returns tt) ].

(** A worker up to its first frame. *)
Definition sample_first_frame : list (MagicCANBus.event Z) :=
  [ MagicCANBus.Call_start (Returns tt);
    MagicCANBus.Read_keep_alive true;
    MagicCANBus.Read_keep_alive true;
    MagicCANBus.Read_is_up (Returns true);
    MagicCANBus.Call_recv (Returns (Some 0x181)) ].

(** A worker that enqueues one frame and holds the next. *)
Definition sample_two_frames : list (MagicCANBus.event Z) :=
  sample_first_frame
    ++ [ MagicCANBus.Call_put;
         MagicCANBus.Read_keep_alive true;
         MagicCANBus.Read_is_up (Returns true);
         MagicCANBus.Call_recv (Returns None);
         MagicCANBus.Read_keep_alive true;
         MagicCANBus.Read_is_up (Returns true);
         MagicCANBus.Call_recv (Returns (Some 0x282)) ].

(** * Properties *)

(** ** The frame classifier *)

(** Case analysis on every comparison of the goal. *)
Ltac split_bounds :=
  repeat match goal with
         | |- context [Z.geb ?a ?b] => rewrite (Z.geb_leb a b)
         end;
  repeat match goal with
         | |- context [Z.leb ?a ?b] =>
             destruct (Z.leb_spec a b); simpl; try lia
         end.

Section Classifier.
Import MessageType.

(** The classifier follows Table 1 on every integer but [0x680], which
    the last-but-one row of [node_ranges] takes in. *)
Lemma cob_id_to_type_table1 (cob_id : Z) :
  cob_id_to_type cob_id
  = Returns (if cob_id =? 0x680 then SDO_RX else table1 cob_id).
Proof.
  unfold cob_id_to_type, table1, between, node_ranges, scan, in_range.
  cbn [fst snd].
  destruct (Z.eqb_spec cob_id 0x680) as [-> | Hne]; [reflexivity |].
  split_bounds; reflexivity.
Qed.

(** The classifier never raises. *)
Lemma cob_id_to_type_total (cob_id : Z) :
  exists m, cob_id_to_type cob_id = Returns m.
Proof. rewrite cob_id_to_type_table1. eauto. Qed.

(** Outside the 11-bit identifiers no row of Table 1 applies. *)
Lemma table1_outside (identifier : Z) :
  identifier < 0 \/ 0x7FF < identifier -> table1 identifier = UKNOWN.
Proof.
  intros H. unfold table1, between.
  repeat match goal with
         | |- context [Z.leb ?a ?b] =>
             destruct (Z.leb_spec a b); simpl; try lia
         end; reflexivity.
Qed.

End Classifier.

(** C1 (code defect).  Table 1 ends the SDO_RX row at [0x67F], so that
    [0x680] belongs to no row and is UNKNOWN; the table of the classifier
    ends that row at [0x680], and the classifier answers SDO_RX there. *)
Theorem cob_id_to_type_0x680 :
  MessageType.cob_id_to_type 0x680 = Returns MessageType.SDO_RX
  /\ table1 0x680 = MessageType.UKNOWN
  /\ MessageType.cob_id_to_type 0x680 <> Returns (table1 0x680).
Proof. repeat split; try reflexivity. discriminate. Qed.

(** Everywhere else in the 11-bit range the classifier returns exactly the
    function code of Table 1. *)
Lemma cob_id_to_type_agrees_elsewhere (cob_id : Z) :
  0x000 <= cob_id <= 0x7FF -> cob_id <> 0x680 ->
  MessageType.cob_id_to_type cob_id = Returns (table1 cob_id).
Proof.
  intros _ Hne. rewrite cob_id_to_type_table1.
  destruct (Z.eqb_spec cob_id 0x680); [contradiction | reflexivity].
Qed.

(** C6, as stated: [0x17F] would be SYNC.  It is not: the SYNC row ends at
    [0x07F]. *)
Lemma cob_id_to_type_0x17F_not_SYNC :
  ~ (MessageType.cob_id_to_type 0x17F = Returns MessageType.SYNC
     /\ MessageType.cob_id_to_type 0x180 = Returns MessageType.PDO1_TX).
Proof. intros [H _]. discriminate H. Qed.

(** C6 (amended).  The classifier maps [0x17F], which lies in the gap
    between the TIME row and the PDO1_TX row, to UNKNOWN, and [0x180] to
    PDO1_TX. *)
Theorem cob_id_to_type_edge_0x180 :
  MessageType.cob_id_to_type 0x17F = Returns MessageType.UKNOWN
  /\ MessageType.cob_id_to_type 0x180 = Returns MessageType.PDO1_TX.
Proof. split; reflexivity. Qed.

(** C10.  The classifier is total over the integers: outside
    [0x000 .. 0x7FF] it returns UNKNOWN, and raises nowhere. *)
Theorem cob_id_to_type_outside_11_bits (cob_id : Z) :
  cob_id < 0x000 \/ 0x7FF < cob_id ->
  MessageType.cob_id_to_type cob_id = Returns MessageType.UKNOWN.
Proof.
  intros H. rewrite cob_id_to_type_table1.
  destruct (Z.eqb_spec cob_id 0x680); [lia |].
  now rewrite table1_outside.
Qed.

Lemma cob_id_to_type_outside_11_bits_witness :
  (0x1FFFFFFF < 0x000 \/ 0x7FF < 0x1FFFFFFF)
  /\ MessageType.cob_id_to_type 0x1FFFFFFF = Returns MessageType.UKNOWN.
Proof.
  split; [right; lia |].
  apply (cob_id_to_type_outside_11_bits 0x1FFFFFFF). right. lia.
Defined.

(** ** The node id *)

(** The class body binds no [NODE_RANGES]. *)
Lemma class_body_has_no_NODE_RANGES :
  MessageType.getattr MessageType.class_body "NODE_RANGES"
  = Raises AttributeError.
Proof. reflexivity. Qed.

(** C3 (code defect).  [cob_id_to_node_id] returns neither a node id nor
    none: its loop header reads [MessageType.NODE_RANGES], a name the class
    does not bind, and the call raises [AttributeError] on every
    identifier. *)
Theorem cob_id_to_node_id_raises (cob_id : Z) :
  MessageType.cob_id_to_node_id cob_id = Raises AttributeError.
Proof.
  unfold MessageType.cob_id_to_node_id, MessageType.cob_id_to_node_id_in.
  now rewrite class_body_has_no_NODE_RANGES.
Qed.

(** Were the name bound to a table, the call would return what the loop
    finds in it. *)
Lemma cob_id_to_node_id_in_bound cls ranges (cob_id : Z) :
  MessageType.getattr cls "NODE_RANGES" = Returns (MessageType.Table ranges) ->
  MessageType.cob_id_to_node_id_in cls cob_id
  = Returns (MessageType.node_id_scan cob_id ranges).
Proof.
  intros H. unfold MessageType.cob_id_to_node_id_in. now rewrite H.
Qed.

(** The loop returns the offset into the first row that holds the
    identifier, and none exactly when no row holds it. *)
Lemma node_id_scan_some cob_id ranges n :
  MessageType.node_id_scan cob_id ranges = Some n ->
  exists lo hi, In (lo, hi) ranges /\ lo <= cob_id <= hi /\ n = cob_id - lo.
Proof.
  induction ranges as [| [lo hi] rest IH]; simpl; [discriminate |].
  unfold MessageType.in_range; cbn [fst snd].
  destruct (Z.geb_spec cob_id lo) as [Hlo | Hlo],
           (Z.leb_spec cob_id hi) as [Hhi | Hhi]; simpl;
    try (intros Hs; destruct (IH Hs) as (l & h & ? & ? & ?);
         exists l, h; now auto).
  intros [= <-]. exists lo, hi. repeat split; auto; lia.
Qed.

(** Over the table of the classifier the loop would return the offset
    into the Table 1 row of the identifier, the NMT, SYNC and TIME rows
    included, and none for an identifier of no row. *)
Lemma node_id_scan_node_ranges (cob_id : Z) :
  cob_id <> 0x680 ->
  MessageType.node_id_scan cob_id MessageType.node_ranges
  = option_map (fun base => cob_id - base) (table1_base (table1 cob_id)).
Proof.
  intros Hne.
  unfold MessageType.node_id_scan, MessageType.node_ranges,
    MessageType.in_range, table1, between.
  cbn [fst snd]. split_bounds; reflexivity.
Qed.

Example node_id_scan_NMT_SYNC_TIME :
  MessageType.node_id_scan 0x000 MessageType.node_ranges = Some 0
  /\ MessageType.node_id_scan 0x07F MessageType.node_ranges = Some 0x7E
  /\ MessageType.node_id_scan 0x100 MessageType.node_ranges = Some 0
  /\ MessageType.node_id_scan 0x17F MessageType.node_ranges = None.
Proof. repeat split. Qed.

Lemma node_id_scan_none cob_id ranges :
  MessageType.node_id_scan cob_id ranges = None <->
  forall lo hi, In (lo, hi) ranges -> ~ lo <= cob_id <= hi.
Proof.
  induction ranges as [| [lo hi] rest IH]; simpl.
  - split; [intros _ ? ? [] | reflexivity].
  - unfold MessageType.in_range; cbn [fst snd].
    destruct (Z.geb_spec cob_id lo) as [Hlo | Hlo],
             (Z.leb_spec cob_id hi) as [Hhi | Hhi]; simpl;
      try (rewrite IH; split;
           [ intros Hn l h [[= <- <-] | Hin]; [lia | now apply Hn]
           | intros Hn l h Hin; apply Hn; now right ]).
    split; [discriminate |].
    intros Hn. exfalso. apply (Hn lo hi); [now left | lia].
Qed.

(** ** Floats *)

(** The rounding is within half a unit of the last place, it keeps the
    order, and it is exact enough to tell either side of a whole second
    as long as the quotient stays below [2 ^ 34]. *)

Lemma nearest_even_error n d :
  0 < d ->
  - d <= 2 * (n - Float.nearest_even n d * d) <= d.
Proof.
  intros Hd. unfold Float.nearest_even.
  pose proof (Z.div_mod n d ltac:(lia)) as Hn.
  pose proof (Z.mod_pos_bound n d Hd) as Hr.
  destruct (Z.compare_spec (2 * (n mod d)) d) as [He | Hl | Hg];
    [destruct (Z.even (n / d)) |..]; lia.
Qed.

Lemma nearest_even_mono n1 n2 d :
  0 < d -> n1 <= n2 -> Float.nearest_even n1 d <= Float.nearest_even n2 d.
Proof.
  intros Hd Hn.
  destruct (Z.eq_dec n1 n2) as [-> | Hne]; [lia |].
  pose proof (nearest_even_error n1 d Hd).
  pose proof (nearest_even_error n2 d Hd).
  nia.
Qed.

Lemma ilog2_mono n1 n2 d :
  0 < d -> 0 < n1 -> n1 <= n2 -> Float.ilog2 n1 d <= Float.ilog2 n2 d.
Proof.
  intros Hd H1 Hn. unfold Float.ilog2.
  apply Z.sub_le_mono_r, Z.log2_le_mono, Z.div_le_mono; [lia |].
  apply Z.mul_le_mono_nonneg_r; [apply Z.pow_nonneg |]; lia.
Qed.

Lemma ilog2_spec n d :
  0 < d -> 0 < n ->
  let e := Float.ilog2 n d - 52 in
  2 ^ 52 * (d * 2 ^ Z.max 0 e) <= n * 2 ^ Z.max 0 (- e)
  /\ n * 2 ^ Z.max 0 (- e) < 2 ^ 53 * (d * 2 ^ Z.max 0 e).
Proof.
  intros Hd Hn e. unfold Float.ilog2 in e.
  set (k := Z.log2 d + 1) in *.
  set (q := n * 2 ^ k / d) in *.
  set (l := Z.log2 q) in *.
  pose proof (Z.log2_nonneg d) as Hld.
  assert (Hk : 0 <= k) by (unfold k; lia).
  assert (Hdk : d < 2 ^ k).
  { unfold k. replace (Z.log2 d + 1) with (Z.succ (Z.log2 d)) by lia.
    apply Z.log2_spec. exact Hd. }
  assert (Hpk : 0 < 2 ^ k) by (apply Z.pow_pos_nonneg; lia).
  assert (Hq : 0 < q).
  { unfold q. apply Z.div_str_pos. nia. }
  pose proof (Z.log2_spec q Hq) as [Hl1 Hl2]. fold l in Hl1, Hl2.
  pose proof (Z.log2_nonneg q) as Hl0. fold l in Hl0.
  pose proof (Z.mul_div_le (n * 2 ^ k) d Hd) as Hq1. fold q in Hq1.
  pose proof (Z.mul_succ_div_gt (n * 2 ^ k) d Hd) as Hq2. fold q in Hq2.
  replace (Z.succ l) with (l + 1) in Hl2 by lia.
  rewrite Z.pow_add_r in Hl2 by lia. change (2 ^ 1) with 2 in Hl2.
  set (a := Z.max 0 (- e)). set (b := Z.max 0 e).
  assert (Ha : 0 <= a) by (unfold a; lia).
  assert (Hb : 0 <= b) by (unfold b; lia).
  assert (Hab : a + l = b + k + 52) by (unfold a, b, e; lia).
  assert (Hpow : 2 ^ a * 2 ^ l = 2 ^ b * 2 ^ k * 2 ^ 52).
  { rewrite <- !Z.pow_add_r by lia. f_equal. lia. }
  assert (Hpa : 0 < 2 ^ a) by (apply Z.pow_pos_nonneg; lia).
  assert (Hpb : 0 < 2 ^ b) by (apply Z.pow_pos_nonneg; lia).
  assert (Hpl : 0 < 2 ^ l) by (apply Z.pow_pos_nonneg; lia).
  change (2 ^ 53) with (2 * 2 ^ 52).
  set (P52 := 2 ^ 52) in *. set (PA := 2 ^ a) in *. set (PB := 2 ^ b) in *.
  set (PL := 2 ^ l) in *. set (PK := 2 ^ k) in *.
  clearbody P52 PA PB PL PK q.
  split.
  - apply (Z.mul_le_mono_pos_l _ _ PK); [exact Hpk |].
    replace (PK * (P52 * (d * PB))) with ((PB * PK * P52) * d) by ring.
    rewrite <- Hpow. nia.
  - apply (Z.mul_lt_mono_pos_l PK); [exact Hpk |].
    replace (PK * (2 * P52 * (d * PB))) with (2 * ((PB * PK * P52) * d)) by ring.
    rewrite <- Hpow. nia.
Qed.

Lemma pow2_pos a : 0 < 2 ^ Z.max 0 a.
Proof. apply Z.pow_pos_nonneg; lia. Qed.

Lemma mantissa_bounds n d :
  0 < d -> 0 < n ->
  let e := Float.ilog2 n d - 52 in
  let m := Float.nearest_even (n * 2 ^ Z.max 0 (- e)) (d * 2 ^ Z.max 0 e) in
  2 ^ 52 <= m <= 2 ^ 53.
Proof.
  intros Hd Hn e m.
  pose proof (ilog2_spec n d Hd Hn) as [Hlo Hhi]. fold e in Hlo, Hhi.
  pose proof (pow2_pos e) as Hb.
  assert (Hden : 0 < d * 2 ^ Z.max 0 e) by nia.
  pose proof (nearest_even_error (n * 2 ^ Z.max 0 (- e)) _ Hden) as He.
  fold m in He.
  set (den := d * 2 ^ Z.max 0 e) in *. set (num := n * 2 ^ Z.max 0 (- e)) in *.
  clearbody den num m. change (2 ^ 53) with 9007199254740992 in *.
  change (2 ^ 52) with 4503599627370496 in *. nia.
Qed.

Lemma Qle_pow2 m1 m2 b1 b2 a1 a2 :
  0 < a1 -> 0 < a2 ->
  (m1 * b1 # Z.to_pos a1 <= m2 * b2 # Z.to_pos a2)%Q
  <-> m1 * b1 * a2 <= m2 * b2 * a1.
Proof.
  intros H1 H2. unfold Qle. cbn [Qnum Qden]. rewrite !Z2Pos.id by assumption.
  reflexivity.
Qed.

Lemma round_pos_mono n1 n2 d :
  0 < d -> 0 < n1 -> n1 <= n2 ->
  (Float.round_pos n1 d <= Float.round_pos n2 d)%Q.
Proof.
  intros Hd H1 Hn. assert (H2 : 0 < n2) by lia.
  pose proof (ilog2_mono n1 n2 d Hd H1 Hn) as He.
  pose proof (mantissa_bounds n1 d Hd H1) as Hm1.
  pose proof (mantissa_bounds n2 d Hd H2) as Hm2.
  unfold Float.round_pos. cbv zeta in Hm1, Hm2 |- *.
  set (e1 := Float.ilog2 n1 d - 52) in *.
  set (e2 := Float.ilog2 n2 d - 52) in *.
  apply Qle_pow2; try apply pow2_pos.
  destruct (Z.eq_dec e1 e2) as [Heq | Hne].
  - rewrite <- Heq in *.
    pose proof (pow2_pos e1). pose proof (pow2_pos (- e1)).
    apply Z.mul_le_mono_nonneg_r; [lia |].
    apply Z.mul_le_mono_nonneg_r; [lia |].
    apply nearest_even_mono; [nia |].
    apply Z.mul_le_mono_nonneg_r; lia.
  - assert (Hlt : e1 + 1 <= e2) by lia.
    set (m1 := Float.nearest_even (n1 * _) _) in *.
    set (m2 := Float.nearest_even (n2 * _) _) in *. clearbody m1 m2.
    assert (Hp : 2 * (2 ^ Z.max 0 e1 * 2 ^ Z.max 0 (- e2))
                 <= 2 ^ Z.max 0 e2 * 2 ^ Z.max 0 (- e1)).
    { change 2 with (2 ^ 1) at 1. rewrite <- !Z.pow_add_r by lia.
      apply Z.pow_le_mono_r; lia. }
    pose proof (pow2_pos e1). pose proof (pow2_pos (- e1)).
    pose proof (pow2_pos e2). pose proof (pow2_pos (- e2)).
    set (X := 2 ^ Z.max 0 e1 * 2 ^ Z.max 0 (- e2)) in *.
    set (Y := 2 ^ Z.max 0 e2 * 2 ^ Z.max 0 (- e1)) in *.
    replace (m1 * 2 ^ Z.max 0 e1 * 2 ^ Z.max 0 (- e2)) with (m1 * X)
      by (unfold X; ring).
    replace (m2 * 2 ^ Z.max 0 e2 * 2 ^ Z.max 0 (- e1)) with (m2 * Y)
      by (unfold Y; ring).
    assert (0 < X) by (unfold X; nia). assert (0 < Y) by (unfold Y; nia).
    clearbody X Y.
    apply Z.le_trans with (2 ^ 53 * X);
      [apply Z.mul_le_mono_nonneg_r; lia |].
    apply Z.le_trans with (2 ^ 52 * Y);
      [| apply Z.mul_le_mono_nonneg_r; lia].
    change (2 ^ 53) with (2 ^ 52 * 2). lia.
Qed.

Lemma round_pos_nonneg n d :
  0 < d -> 0 < n -> (0 <= Float.round_pos n d)%Q.
Proof.
  intros Hd Hn. pose proof (mantissa_bounds n d Hd Hn) as Hm.
  unfold Float.round_pos. cbv zeta in Hm |- *.
  unfold Qle. cbn [Qnum Qden].
  rewrite Z.mul_0_l, Z.mul_1_r. apply Z.mul_nonneg_nonneg.
  - change (2 ^ 52) with 4503599627370496 in Hm. lia.
  - apply Z.lt_le_incl, pow2_pos.
Qed.

Lemma true_divide_mono n1 n2 d :
  0 < d -> n1 <= n2 ->
  (Float.true_divide n1 d <= Float.true_divide n2 d)%Q.
Proof.
  intros Hd Hn. unfold Float.true_divide.
  destruct n1 as [| p1 | p1], n2 as [| p2 | p2]; try lia.
  - apply Qle_refl.
  - apply round_pos_nonneg; lia.
  - apply round_pos_mono; lia.
  - apply (Qopp_le_compat 0), round_pos_nonneg; lia.
  - apply Qle_trans with 0%Q.
    + apply (Qopp_le_compat 0), round_pos_nonneg; lia.
    + apply round_pos_nonneg; lia.
  - apply Qopp_le_compat, round_pos_mono; lia.
Qed.

Lemma small_exponent n :
  0 < n < 2 ^ 34 * 1000000 ->
  Float.ilog2 n 1000000 - 52 <= -19.
Proof.
  intros Hn. pose proof (ilog2_spec n 1000000 ltac:(lia) ltac:(lia)) as [Hlo _].
  cbv zeta in Hlo. set (e := Float.ilog2 n 1000000 - 52) in *.
  destruct (Z_le_gt_dec e (-19)) as [| Hgt]; [assumption | exfalso].
  assert (Ha : 2 ^ Z.max 0 (- e) <= 2 ^ 18) by (apply Z.pow_le_mono_r; lia).
  pose proof (pow2_pos e) as Hb. pose proof (pow2_pos (- e)) as Hpa.
  set (A := 2 ^ Z.max 0 (- e)) in *. set (B := 2 ^ Z.max 0 e) in *.
  clearbody A B.
  change (2 ^ 52) with 4503599627370496 in *.
  change (2 ^ 34) with 17179869184 in *. change (2 ^ 18) with 262144 in *.
  nia.
Qed.

Lemma round_pos_small n :
  0 < n < 2 ^ 34 * 1000000 ->
  exists m A,
    Float.round_pos n 1000000 = (m * 1 # Z.to_pos A)
    /\ 524288 <= A
    /\ - 1000000 <= 2 * (n * A - m * 1000000) <= 1000000.
Proof.
  intros Hn. pose proof (small_exponent n Hn) as He.
  unfold Float.round_pos. cbv zeta. set (e := Float.ilog2 n 1000000 - 52) in *.
  replace (Z.max 0 e) with 0 by lia. change (2 ^ 0) with 1.
  change (1000000 * 1) with 1000000.
  exists (Float.nearest_even (n * 2 ^ Z.max 0 (- e)) 1000000),
         (2 ^ Z.max 0 (- e)).
  split; [reflexivity |]. split.
  - change 524288 with (2 ^ 19). apply Z.pow_le_mono_r; lia.
  - apply (nearest_even_error _ 1000000). lia.
Qed.

Lemma round_pos_ge_int n k :
  0 < n < 2 ^ 34 * 1000000 ->
  (inject_Z k <= Float.round_pos n 1000000)%Q <-> k * 1000000 <= n.
Proof.
  intros Hn. destruct (round_pos_small n Hn) as (m & A & -> & HA & Hm).
  unfold Qle, inject_Z. cbn [Qnum Qden]. rewrite Z2Pos.id by lia.
  rewrite !Z.mul_1_r. split; intros H; nia.
Qed.

Lemma round_pos_le_int n j :
  0 < n < 2 ^ 34 * 1000000 ->
  (Float.round_pos n 1000000 <= inject_Z j)%Q <-> n <= j * 1000000.
Proof.
  intros Hn. destruct (round_pos_small n Hn) as (m & A & -> & HA & Hm).
  unfold Qle, inject_Z. cbn [Qnum Qden]. rewrite Z2Pos.id by lia.
  rewrite !Z.mul_1_r. split; intros H; nia.
Qed.

Lemma true_divide_ge_int n k :
  - (2 ^ 34 * 1000000) < n < 2 ^ 34 * 1000000 ->
  (inject_Z k <= Float.true_divide n 1000000)%Q <-> k * 1000000 <= n.
Proof.
  intros Hn. unfold Float.true_divide. destruct n as [| p | p].
  - unfold Qle, inject_Z. cbn [Qnum Qden]. lia.
  - apply round_pos_ge_int. lia.
  - pose proof (round_pos_le_int (Z.pos p) (- k) ltac:(lia)) as H.
    replace (inject_Z k) with (- inject_Z (- k))%Q
      by (unfold inject_Z, Qopp; cbn [Qnum Qden]; now rewrite Z.opp_involutive).
    split.
    + intros Hq. apply Qopp_le_compat in Hq. rewrite !Qopp_involutive in Hq.
      apply H in Hq. lia.
    + intros Hz. apply Qopp_le_compat, H. lia.
Qed.

(** ** Liveness *)

Section Liveness.
Import CANMsg.

Lemma ge_seconds_mono (us1 us2 timeout : Z) :
  us1 <= us2 ->
  ge_seconds (total_seconds us1) timeout = true ->
  ge_seconds (total_seconds us2) timeout = true.
Proof.
  unfold ge_seconds, total_seconds. intros Hle H.
  apply Qle_bool_iff in H. apply Qle_bool_iff.
  apply Qle_trans with (1 := H). apply true_divide_mono; lia.
Qed.

Lemma ge_seconds_threshold (x : Q) (y1 y2 : Z) :
  y1 <= y2 -> ge_seconds x y2 = true -> ge_seconds x y1 = true.
Proof.
  unfold ge_seconds. intros Hle H.
  apply Qle_bool_iff in H. apply Qle_bool_iff.
  apply Qle_trans with (2 := H).
  unfold Qle, inject_Z. cbn [Qnum Qden]. lia.
Qed.

(** Below [2 ^ 34] seconds the comparison on floats is the comparison on
    microseconds. *)
Lemma ge_seconds_total_seconds (us timeout : Z) :
  Z.abs us < seconds (2 ^ 34) ->
  ge_seconds (total_seconds us) timeout = (timeout * 1000000 <=? us).
Proof.
  unfold seconds. intros Hus.
  unfold ge_seconds, total_seconds.
  destruct (Z.leb_spec (timeout * 1000000) us) as [Hle | Hlt].
  - apply Qle_bool_iff, true_divide_ge_int; lia.
  - destruct (Qle_bool _ _) eqn:H; [| reflexivity].
    apply Qle_bool_iff, true_divide_ge_int in H; lia.
Qed.

Lemma ge_seconds_zero (timeout : Z) :
  ge_seconds (total_seconds 0) timeout = (timeout <=? 0).
Proof.
  unfold ge_seconds, total_seconds, Qle_bool. cbn.
  now rewrite Z.mul_1_r.
Qed.

Lemma state_of_name_state_name (s : LivenessState) :
  state_of_name (state_name s) = Some s.
Proof. destruct s; reflexivity. Qed.

(** What [status] returns under any clock: [is_dead] takes one reading,
    [is_stale], when it is called, the next. *)
Lemma status_reads (self : t) (clk : Clock.readings) (k : nat) :
  Clock.result (status self) clk k
  = state_name
      (if ge_seconds (total_seconds (clk k - timestamp self))
                     (dead_timeout self)
       then DEAD
       else if ge_seconds (total_seconds (clk (S k) - timestamp self))
                          (stale_timeout self)
            then STALE
            else ALIVE).
Proof.
  unfold Clock.result, status, is_dead, is_stale, Clock.bind, Clock.now,
    Clock.ret.
  cbv beta iota zeta.
  destruct (ge_seconds (total_seconds (clk k - timestamp self))
                       (dead_timeout self)); [reflexivity |].
  cbv beta iota zeta.
  destruct (ge_seconds (total_seconds (clk (S k) - timestamp self))
                       (stale_timeout self)); reflexivity.
Qed.

Lemma status_frozen (self : t) (now : Z) (k : nat) :
  Z.abs (now - timestamp self) < seconds (2 ^ 34) ->
  Clock.result (status self) (Clock.frozen now) k
  = state_name (liveness (timestamp self) (stale_timeout self)
                         (dead_timeout self) now).
Proof.
  intros H. rewrite status_reads. unfold Clock.frozen, liveness.
  now rewrite !ge_seconds_total_seconds by assumption.
Qed.

(** [status] reads the message and the clock and changes neither: the
    call consumes one or two readings. *)
Lemma status_readings (self : t) (clk : Clock.readings) (k : nat) :
  snd (status self clk k) = S k \/ snd (status self clk k) = S (S k).
Proof.
  unfold status, is_dead, is_stale, Clock.bind, Clock.now, Clock.ret.
  destruct (ge_seconds _ (dead_timeout self)); [now left |].
  destruct (ge_seconds _ (stale_timeout self)); now right.
Qed.

(** [__init__] raises what the base constructor raises, and nothing else:
    the member lookup of the classifier always finds its member. *)
Lemma __init___outcome Frame___init__ src iface stale dead clk k :
  Clock.result (__init__ Frame___init__ src iface stale dead) clk k
  = match Frame___init__ (src_arb_id src) (src_data src)
            (src_frame_type src) iface (clk k) (src_is_extended_id src) with
    | Raises e => Raises e
    | Returns base =>
        Returns
          {| arb_id := base_arb_id base;
             data := base_data base;
             frame_type := base_frame_type base;
             interface := base_interface base;
             timestamp := base_timestamp base;
             extended := base_is_extended_id base;
             message_type :=
               if src_arb_id src =? 0x680 then MessageType.SDO_RX
               else table1 (src_arb_id src);
             stale_timeout := match stale with Some s => s | None => 6 end;
             dead_timeout := match dead with Some d => d | None => 12 end;
             node_name := hex (base_arb_id base) |}
    end.
Proof.
  unfold Clock.result, __init__, Clock.bind, Clock.now, Clock.ret.
  cbn [fst]. destruct (Frame___init__ _ _ _ _ _ _); [| reflexivity].
  cbn [bind]. now rewrite cob_id_to_type_table1.
Qed.

(** Severity never drops between two calls whose readings are ordered. *)
Lemma status_severity_monotone (self : t) clk1 k1 clk2 k2 :
  clk1 k1 <= clk2 k2 -> clk1 (S k1) <= clk2 (S k2) ->
  exists s1 s2,
    state_of_name (Clock.result (status self) clk1 k1) = Some s1
    /\ state_of_name (Clock.result (status self) clk2 k2) = Some s2
    /\ (severity s1 <= severity s2)%nat.
Proof.
  intros Hd Hs. rewrite !status_reads.
  eexists _, _. rewrite !state_of_name_state_name.
  split; [reflexivity |]. split; [reflexivity |].
  pose proof (ge_seconds_mono (clk1 k1 - timestamp self)
                (clk2 k2 - timestamp self) (dead_timeout self)
                ltac:(lia)) as Hdead.
  pose proof (ge_seconds_mono (clk1 (S k1) - timestamp self)
                (clk2 (S k2) - timestamp self) (stale_timeout self)
                ltac:(lia)) as Hstale.
  destruct (ge_seconds (total_seconds (clk1 k1 - timestamp self)) _).
  - now rewrite Hdead.
  - destruct (ge_seconds (total_seconds (clk2 k2 - timestamp self)) _);
      [destruct (ge_seconds _ _); simpl; lia |].
    destruct (ge_seconds (total_seconds (clk1 (S k1) - timestamp self)) _).
    + now rewrite Hstale.
    + destruct (ge_seconds _ _); simpl; lia.
Qed.

End Liveness.

(** C5, as stated: for every time [now] the status would follow the three
    comparisons on [now - timestamp].  The code compares the float of
    [total_seconds()]: a message that dies after 20 000 000 000 seconds is
    DEAD one microsecond early, where the comparisons give STALE. *)
Lemma status_rounds_long_differences :
  Clock.result (CANMsg.status sample_long_lived)
    (Clock.frozen (seconds 20000000000 - 1)) 0
  = "DEAD"%string
  /\ state_name
       (liveness (CANMsg.timestamp sample_long_lived)
          (CANMsg.stale_timeout sample_long_lived)
          (CANMsg.dead_timeout sample_long_lived)
          (seconds 20000000000 - 1))
     = "STALE"%string.
Proof. split; vm_compute; reflexivity. Qed.

(** C5 (amended).  With the clock at [now], less than [2 ^ 34] seconds
    away from the timestamp, [status] is DEAD when
    [now - timestamp >= dead_timeout], else STALE when
    [now - timestamp >= stale_timeout], else ALIVE; and a message built
    without overrides, when the base constructor accepts the frame, has
    thresholds 6 and 12 seconds. *)
Theorem status_liveness_in_range_and_defaults :
  (forall (self : CANMsg.t) (now : Z) (k : nat),
      Z.abs (now - CANMsg.timestamp self) < seconds (2 ^ 34) ->
      Clock.result (CANMsg.status self) (Clock.frozen now) k
      = state_name (liveness (CANMsg.timestamp self)
                             (CANMsg.stale_timeout self)
                             (CANMsg.dead_timeout self) now))
  /\ (forall Frame___init__ src iface clk k base,
         Frame___init__ (CANMsg.src_arb_id src) (CANMsg.src_data src)
           (CANMsg.src_frame_type src) iface (clk k)
           (CANMsg.src_is_extended_id src)
         = Returns base ->
         exists self,
           Clock.result (CANMsg.__init__ Frame___init__ src iface None None)
             clk k
           = Returns self
           /\ CANMsg.stale_timeout self = 6
           /\ CANMsg.dead_timeout self = 12)
  /\ (forall Frame___init__ src iface clk k self,
         Clock.result (CANMsg.__init__ Frame___init__ src iface None None)
           clk k
         = Returns self ->
         CANMsg.stale_timeout self = 6 /\ CANMsg.dead_timeout self = 12).
Proof.
  split; [| split].
  - apply status_frozen.
  - intros F src iface clk k base Hb. rewrite __init___outcome, Hb.
    eexists. split; [reflexivity |]. split; reflexivity.
  - intros F src iface clk k self. rewrite __init___outcome.
    destruct (F _ _ _ _ _ _); [| discriminate].
    intros [= <-]. split; reflexivity.
Qed.

Lemma status_liveness_in_range_and_defaults_witness :
  Clock.result (CANMsg.status sample_msg) (Clock.frozen (seconds 8)) 0
  = state_name (liveness (CANMsg.timestamp sample_msg)
                         (CANMsg.stale_timeout sample_msg)
                         (CANMsg.dead_timeout sample_msg) (seconds 8))
  /\ (exists self,
         Clock.result
           (CANMsg.__init__ sample_Frame___init__ sample_frame "can0"
              None None) (Clock.frozen 0) 0
         = Returns self
         /\ CANMsg.stale_timeout self = 6
         /\ CANMsg.dead_timeout self = 12).
Proof.
  destruct status_liveness_in_range_and_defaults as (Hstatus & Hbuilt & _).
  split.
  - apply (Hstatus sample_msg (seconds 8) 0%nat). vm_compute. reflexivity.
  - exact (Hbuilt sample_Frame___init__ sample_frame "can0"%string
             (Clock.frozen 0) 0%nat _ eq_refl).
Defined.

(** C8.  With thresholds 6 and 12 a message stamped [t] is ALIVE at [t],
    STALE at [t + 6 s] and DEAD at [t + 12 s]; and for any message the
    severity of the status at [now2] is at least that at [now1] whenever
    [now1 <= now2]. *)
Theorem status_thresholds_and_monotone :
  (forall (self : CANMsg.t) (k : nat),
      CANMsg.stale_timeout self = 6 -> CANMsg.dead_timeout self = 12 ->
      let t := CANMsg.timestamp self in
      Clock.result (CANMsg.status self) (Clock.frozen t) k = "ALIVE"%string
      /\ Clock.result (CANMsg.status self) (Clock.frozen (t + seconds 6)) k
         = "STALE"%string
      /\ Clock.result (CANMsg.status self) (Clock.frozen (t + seconds 12)) k
         = "DEAD"%string)
  /\ (forall (self : CANMsg.t) (now1 now2 : Z) (k1 k2 : nat),
         now1 <= now2 ->
         exists s1 s2,
           state_of_name
             (Clock.result (CANMsg.status self) (Clock.frozen now1) k1)
           = Some s1
           /\ state_of_name
                (Clock.result (CANMsg.status self) (Clock.frozen now2) k2)
              = Some s2
           /\ (severity s1 <= severity s2)%nat).
Proof.
  split.
  - intros self k Hs Hd t. rewrite !status_reads. unfold Clock.frozen.
    rewrite Hs, Hd. subst t. rewrite Z.sub_diag.
    replace (CANMsg.timestamp self + seconds 6 - CANMsg.timestamp self)
      with 6000000 by (unfold seconds; lia).
    replace (CANMsg.timestamp self + seconds 12 - CANMsg.timestamp self)
      with 12000000 by (unfold seconds; lia).
    split; [| split]; vm_compute; reflexivity.
  - intros self now1 now2 k1 k2 Hle.
    now apply status_severity_monotone.
Qed.

Lemma status_thresholds_and_monotone_witness :
  Clock.result (CANMsg.status sample_msg)
    (Clock.frozen (CANMsg.timestamp sample_msg + seconds 6)) 0
  = "STALE"%string
  /\ exists s1 s2,
      state_of_name
        (Clock.result (CANMsg.status sample_msg) (Clock.frozen (seconds 8)) 0)
      = Some s1
      /\ state_of_name
           (Clock.result (CANMsg.status sample_msg) (Clock.frozen (seconds 14)) 0)
         = Some s2
      /\ (severity s1 <= severity s2)%nat.
Proof.
  destruct status_thresholds_and_monotone as [Hat Hmono]. split.
  - apply (Hat sample_msg 0%nat); reflexivity.
  - apply (Hmono sample_msg (seconds 8) (seconds 14)). unfold seconds. lia.
Defined.

(** ** Construction *)

Lemma construct_returns {new_Interface} if_names ifaces :
  Forall2 (fun x iface => new_Interface x = Returns iface) if_names ifaces ->
  MagicCANBus.construct new_Interface if_names = Returns ifaces.
Proof.
  induction 1 as [| x iface names ifaces Hx _ IH]; [reflexivity |].
  cbn. rewrite Hx. cbn. now rewrite IH.
Qed.

Lemma construct_raises {new_Interface} if_names e :
  MagicCANBus.construct new_Interface if_names = Raises e ->
  exists x, In x if_names /\ new_Interface x = Raises e.
Proof.
  induction if_names as [| x rest IH]; [discriminate |].
  cbn. destruct (new_Interface x) as [iface | e'] eqn:Hx; cbn.
  - destruct (MagicCANBus.construct new_Interface rest) as [ifaces | e'']
      eqn:Hrest; cbn; [discriminate |].
    intros [= ->]. destruct (IH eq_refl) as (y & Hin & Hy).
    exists y. split; [now right | assumption].
  - intros [= ->]. exists x. split; [now left | assumption].
Qed.

(** C4, as stated: construction would fail with [ConfigError] on an empty
    or duplicated interface list and on [dead_timeout < stale_timeout].
    On such input both constructors return their object. *)
Lemma construction_accepts_invalid_input :
  (~ valid_if_names []
   /\ exists self : MagicCANBus.t CANMsg.Frame,
       MagicCANBus.__init__ sample_Interface [] = Returns self)
  /\ (~ valid_if_names ["can0"; "can0"]%string
      /\ exists self : MagicCANBus.t CANMsg.Frame,
          MagicCANBus.__init__ sample_Interface ["can0"; "can0"]%string
          = Returns self)
  /\ (~ valid_thresholds 12 6
      /\ exists self,
          Clock.result
            (CANMsg.__init__ sample_Frame___init__ sample_frame "can0"
               (Some 12) (Some 6))
            (Clock.frozen 0) 0
          = Returns self).
Proof.
  split; [| split]; (split; [| eexists; reflexivity]).
  - intros [H _]. now apply H.
  - intros [_ H]. inversion H as [| x l Hin _]; subst. apply Hin. now left.
  - unfold valid_thresholds. lia.
Qed.

(** C4 (amended).  Neither constructor validates its input or raises a
    [ConfigError] of its own.  For any list of names, empty and repeated
    names included, the bus is built with the handles the [Interface]
    calls return, in the order listed, and [__init__] raises only what
    one of those calls raises; a message is built with whatever
    thresholds it is given, and [CANMsg.__init__] raises only what the
    base constructor raises. *)
Theorem construction_adds_no_rejection :
  (forall (Message : Type) new_Interface if_names ifaces,
      Forall2 (fun x iface => new_Interface x = Returns iface)
        if_names ifaces ->
      MagicCANBus.__init__ (Message := Message) new_Interface if_names
      = Returns {| MagicCANBus.interfaces := ifaces;
                   MagicCANBus.keep_alive := true;
                   MagicCANBus.message_queue := [];
                   MagicCANBus.threads := None |})
  /\ (forall (Message : Type) new_Interface if_names e,
         MagicCANBus.__init__ (Message := Message) new_Interface if_names
         = Raises e ->
         exists x, In x if_names /\ new_Interface x = Raises e)
  /\ (forall Frame___init__ src iface stale dead clk k,
         match Frame___init__ (CANMsg.src_arb_id src) (CANMsg.src_data src)
                 (CANMsg.src_frame_type src) iface (clk k)
                 (CANMsg.src_is_extended_id src) with
         | Raises e =>
             Clock.result
               (CANMsg.__init__ Frame___init__ src iface
                  (Some stale) (Some dead)) clk k
             = Raises e
         | Returns _ =>
             exists self,
               Clock.result
                 (CANMsg.__init__ Frame___init__ src iface
                    (Some stale) (Some dead)) clk k
               = Returns self
               /\ CANMsg.stale_timeout self = stale
               /\ CANMsg.dead_timeout self = dead
         end).
Proof.
  split; [| split].
  - intros Message new_Interface if_names ifaces H.
    unfold MagicCANBus.__init__. now rewrite (construct_returns _ _ H).
  - intros Message new_Interface if_names e. unfold MagicCANBus.__init__.
    destruct (MagicCANBus.construct new_Interface if_names) eqn:Hc;
      cbn; [discriminate |].
    intros [= ->]. now apply construct_raises.
  - intros F src iface stale dead clk k. rewrite __init___outcome.
    destruct (F _ _ _ _ _ _); [| reflexivity].
    eexists. split; [reflexivity |]. split; reflexivity.
Qed.

Lemma construction_adds_no_rejection_witness :
  MagicCANBus.__init__ (Message := CANMsg.Frame) sample_Interface
    ["can0"; "can0"]%string
  = Returns {| MagicCANBus.interfaces :=
                 [ {| MagicCANBus.name := "can0" |};
                   {| MagicCANBus.name := "can0" |} ];
               MagicCANBus.keep_alive := true;
               MagicCANBus.message_queue := [];
               MagicCANBus.threads := None |}
  /\ (exists x, In x ["can0"; ""]%string
                /\ sample_Interface x = Raises OSError)
  /\ (exists self,
         Clock.result
           (CANMsg.__init__ sample_Frame___init__ sample_frame "can0"
              (Some 12) (Some 6)) (Clock.frozen 0) 0
         = Returns self
         /\ CANMsg.stale_timeout self = 12
         /\ CANMsg.dead_timeout self = 6)
  /\ Clock.result
       (CANMsg.__init__ sample_Frame___init__ sample_refused_frame "can0"
          (Some 6) (Some 12)) (Clock.frozen 0) 0
     = Raises ValueError.
Proof.
  destruct construction_adds_no_rejection as (Hbuilt & Hraises & Hmsg).
  split; [| split; [| split]].
  - apply (Hbuilt CANMsg.Frame sample_Interface).
    repeat constructor.
  - apply (Hraises CANMsg.Frame sample_Interface ["can0"; ""]%string OSError).
    reflexivity.
  - exact (Hmsg sample_Frame___init__ sample_frame "can0"%string 12 6
             (Clock.frozen 0) 0%nat).
  - exact (Hmsg sample_Frame___init__ sample_refused_frame "can0"%string 6 12
             (Clock.frozen 0) 0%nat).
Defined.

(** ** The dispatcher *)

Section Dispatcher.
Import CANOpenParser.
Context {eds sdo_state : Type}.
Variable D : Decoders eds sdo_state.

Ltac branch :=
  repeat match goal with
         | |- context [Z.geb ?a ?b] => rewrite (Z.geb_leb a b)
         end;
  repeat match goal with
         | |- context [Z.leb ?a ?b] =>
             destruct (Z.leb_spec a b); try lia
         | |- context [Z.ltb ?a ?b] =>
             destruct (Z.ltb_spec a b); try lia
         end;
  cbn [andb].

(** The whole routing of [parse], branch by branch. *)
Lemma parse_SYNC self cob_id data :
  cob_id <= 0x80 -> parse D self cob_id data = (SYNCParser_parse D data, self).
Proof. intros H. unfold parse. branch. reflexivity. Qed.

Lemma parse_EMCY self cob_id data :
  0x81 <= cob_id <= 0x17F ->
  parse D self cob_id data = (EMCYParser_parse D data, self).
Proof. intros H. unfold parse. branch. reflexivity. Qed.

Lemma parse_PDO self cob_id data :
  0x180 <= cob_id <= 0x57F ->
  parse D self cob_id data
  = (row <- first (eds_configs self) ;;
     e <- first row ;;
     PDOParser_parse D cob_id e data, self).
Proof. intros H. unfold parse. branch. reflexivity. Qed.

Lemma parse_SDO self cob_id data e row rest :
  0x580 <= cob_id <= 0x6FF ->
  eds_configs self = (e :: row) :: rest ->
  parse D self cob_id data
  = (fst (SDOParser_parse D (sdo self) cob_id e data),
     {| sdo := snd (SDOParser_parse D (sdo self) cob_id e data);
        eds_configs := eds_configs self |}).
Proof.
  intros H He. unfold parse. branch. rewrite He. cbn.
  now destruct (SDOParser_parse D (sdo self) cob_id e data).
Qed.

Lemma parse_HB self cob_id data :
  0x700 <= cob_id <= 0x7E3 ->
  parse D self cob_id data = (HBParser_parse D data, self).
Proof. intros H. unfold parse. branch. reflexivity. Qed.

Lemma parse_BAD_PARSE self cob_id data :
  0x7E4 <= cob_id ->
  parse D self cob_id data = (Returns "BAD PARSE"%string, self).
Proof. intros H. unfold parse. branch. reflexivity. Qed.

End Dispatcher.

(** C2, as stated: every identifier of [0x700 .. 0x7FF] would reach the
    heartbeat decoder, and a PDO would be decoded with the dictionary of
    its sender.  On the [naming] decoders: [0x7E4] reaches no decoder, and
    the PDOs of nodes 1, 2 and 3 are all decoded with the first entry. *)
Lemma parse_not_per_table1 :
  fst (CANOpenParser.parse CANOpenParser.naming sample_parser 0x7E4 [5])
  <> CANOpenParser.HBParser_parse CANOpenParser.naming [5]
  /\ fst (CANOpenParser.parse CANOpenParser.naming sample_parser 0x181 [])
     = Returns "PDO with node1.eds"%string
  /\ fst (CANOpenParser.parse CANOpenParser.naming sample_parser 0x182 [])
     = Returns "PDO with node1.eds"%string
  /\ fst (CANOpenParser.parse CANOpenParser.naming sample_parser 0x183 [])
     = Returns "PDO with node1.eds"%string.
Proof. repeat split; try reflexivity. discriminate. Qed.

(** C2 (amended).  [parse] hands identifiers [0x081 .. 0x0FF] to the EMCY
    decoder and [0x700 .. 0x7E3] to the heartbeat decoder; identifiers
    [0x7E4 .. 0x7FF] reach no decoder and yield ['BAD PARSE'].  A PDO
    identifier ([0x180 .. 0x57F]) goes to the PDO decoder together with the
    first configured dictionary entry, [eds_configs[0][0]], whichever node
    sent the frame. *)
Theorem parse_routes (eds sdo_state : Type)
    (D : CANOpenParser.Decoders eds sdo_state)
    (self : CANOpenParser.t eds sdo_state) (cob_id : Z) (data : list Z) :
  (0x081 <= cob_id <= 0x0FF ->
   CANOpenParser.parse D self cob_id data
   = (CANOpenParser.EMCYParser_parse D data, self))
  /\ (0x700 <= cob_id <= 0x7E3 ->
      CANOpenParser.parse D self cob_id data
      = (CANOpenParser.HBParser_parse D data, self))
  /\ (0x7E4 <= cob_id <= 0x7FF ->
      CANOpenParser.parse D self cob_id data
      = (Returns "BAD PARSE"%string, self))
  /\ (0x180 <= cob_id <= 0x57F ->
      forall e row rest,
        CANOpenParser.eds_configs self = (e :: row) :: rest ->
        CANOpenParser.parse D self cob_id data
        = (CANOpenParser.PDOParser_parse D cob_id e data, self)).
Proof.
  repeat split.
  - intros H. apply parse_EMCY. lia.
  - apply parse_HB.
  - intros H. apply parse_BAD_PARSE. lia.
  - intros H e row rest He. rewrite parse_PDO by assumption. now rewrite He.
Qed.

Lemma parse_routes_witness :
  CANOpenParser.parse CANOpenParser.naming sample_parser 0x081 [0; 16]
  = (Returns "EMCY"%string, sample_parser)
  /\ CANOpenParser.parse CANOpenParser.naming sample_parser 0x7E3 [5]
     = (Returns "HB"%string, sample_parser)
  /\ CANOpenParser.parse CANOpenParser.naming sample_parser 0x7FF [5]
     = (Returns "BAD PARSE"%string, sample_parser)
  /\ CANOpenParser.parse CANOpenParser.naming sample_parser 0x203 [1; 2]
     = (Returns "PDO with node1.eds"%string, sample_parser).
Proof.
  split; [| split; [| split]].
  - apply (parse_routes string unit CANOpenParser.naming sample_parser
             0x081 [0; 16]). lia.
  - apply (parse_routes string unit CANOpenParser.naming sample_parser
             0x7E3 [5]). lia.
  - apply (parse_routes string unit CANOpenParser.naming sample_parser
             0x7FF [5]). lia.
  - apply (proj2 (proj2 (proj2
             (parse_routes string unit CANOpenParser.naming sample_parser
                0x203 [1; 2])))) with (row := ["node2.eds"%string])
                                      (rest := [["node3.eds"%string]]).
    + lia.
    + reflexivity.
Defined.

(** ** The handler of a worker *)

Section Handler.
Import MagicCANBus.
Context {Message : Type}.

(** Case analysis on a step that is known to be possible. *)
Ltac step_cases H :=
  match type of H with
  | step ?p ?ev = Some _ =>
      destruct p; destruct ev; simpl in H; unfold in_try in H;
      try discriminate H;
      repeat match type of H with
             | context [match ?x with _ => _ end] =>
                 destruct x; simpl in H; try discriminate H
             end
  end.

Lemma run_app (p : pc Message) (tr1 tr2 : list (event Message)) :
  run p (tr1 ++ tr2)
  = match run p tr1 with
    | Some q => run q tr2
    | None => None
    end.
Proof.
  revert p. induction tr1 as [| ev tr1 IH]; intros p; simpl; [reflexivity |].
  destruct (step p ev); [apply IH | reflexivity].
Qed.

Lemma run_snoc (p q : pc Message) (tr : list (event Message)) (ev : event Message) :
  run p (tr ++ [ev]) = Some q ->
  exists p', run p tr = Some p' /\ step p' ev = Some q.
Proof.
  rewrite run_app. destruct (run p tr) as [p' |]; [| discriminate].
  simpl. destruct (step p' ev) as [q' |] eqn:E; [| discriminate].
  intros [= <-]. eauto.
Qed.

(** A thread that has ended makes no step. *)
Lemma terminated_stuck (p : pc Message) (ev : event Message) :
  terminated p = true -> step p ev = None.
Proof. destruct p; try discriminate; reflexivity. Qed.

(** *** An I/O error of [recv] is answered by [restart] *)




(** After the restart the worker is back at the head of its loop and,
    the flag being set and the channel up, calls [recv] again. *)
Lemma resumes_receiving :
  run (AtRecv : pc Message)
    [ Call_recv (Raises OSError); Call_restart (Returns tt);
      Read_keep_alive true; Read_keep_alive true; Read_is_up (Returns true) ]
  = Some AtRecv.
Proof. reflexivity. Qed.

(** *** As many restarts as errors *)


Lemma count_app (f : event Message -> bool) (tr1 tr2 : list (event Message)) :
  count f (tr1 ++ tr2) = (count f tr1 + count f tr2)%nat.
Proof. unfold count. now rewrite filter_app, length_app. Qed.




(** *** What ends a worker *)





(** *** The way out *)



Lemma last_event {A : Type} (l : list A) :
  l = [] \/ exists x l', l = l' ++ [x].
Proof. induction l using rev_ind; [now left | right; eauto]. Qed.



(** Once the flag reads cleared, a worker whose calls return is out of
    the handler within six steps, from wherever it stands. *)
Lemma leaves_when_cleared (p : pc Message) :
  terminated p = false -> p <> AtStart ->
  exists tr,
    (List.length tr <= 6)%nat
    /\ Forall (fun ev => raised ev = false) tr
    /\ Forall (fun ev => forall b, ev = Read_keep_alive b -> b = false) tr
    /\ run p tr = Some Exited.
Proof.
  intros Ht Hs.
  assert (Hka : forall b : bool,
             @Read_keep_alive Message false = Read_keep_alive b -> b = false)
    by (intros b [= <-]; reflexivity).
  destruct p; try discriminate Ht; try contradiction.
  - exists [Read_keep_alive false; Call_stop (Returns tt)].
    repeat split; simpl; try lia; repeat constructor; auto; discriminate.
  - exists [Read_keep_alive false; Call_restart (Returns tt);
            Read_keep_alive false; Call_stop (Returns tt)].
    repeat split; simpl; try lia; repeat constructor; auto; discriminate.
  - exists [Read_is_up (Returns false); Call_restart (Returns tt);
            Read_keep_alive false; Call_stop (Returns tt)].
    repeat split; simpl; try lia; repeat constructor; auto; discriminate.
  - exists [Call_recv (Returns None); Read_keep_alive false;
            Call_restart (Returns tt);
            Read_keep_alive false; Call_stop (Returns tt)].
    repeat split; simpl; try lia; repeat constructor; auto; discriminate.
  - exists [Call_put; Read_keep_alive false; Call_restart (Returns tt);
            Read_keep_alive false; Call_stop (Returns tt)].
    repeat split; simpl; try lia; repeat constructor; auto; discriminate.
  - exists [Call_restart (Returns tt);
            Read_keep_alive false; Call_stop (Returns tt)].
    repeat split; simpl; try lia; repeat constructor; auto; discriminate.
  - exists [Call_restart (Returns tt);
            Read_keep_alive false; Call_stop (Returns tt)].
    repeat split; simpl; try lia; repeat constructor; auto; discriminate.
  - exists [Call_stop (Returns tt)].
    repeat split; simpl; try lia; repeat constructor; auto; discriminate.
Qed.

End Handler.

(** ** The bus and its threads *)

Section Multiplexer.
Import MagicCANBus.
Context {Message : Type}.

Lemma length_update {A : Type} (i : nat) (x : A) (l : list A) :
  List.length (update i x l) = List.length l.
Proof.
  revert i. induction l as [| y l IH]; intros [| i]; simpl; auto.
Qed.

Lemma nth_error_update {A : Type} (i j : nat) (x y : A) (l : list A) :
  nth_error (update i x l) j = Some y ->
  (j = i /\ y = x) \/ (j <> i /\ nth_error l j = Some y).
Proof.
  revert i j. induction l as [| z l IH]; intros [| i] [| j]; simpl;
    try discriminate; try (intros H; right; split; [lia | exact H]).
  - intros [= <-]. now left.
  - intros H. destruct (IH _ _ H) as [[-> ->] | [Hne Hn]];
      [now left | right; split; [lia | exact Hn]].
Qed.


Lemma put_app (q arrived : list Message) :
  fold_left put arrived q = q ++ arrived.
Proof.
  revert q. induction arrived as [| m arrived IH]; intros q; simpl.
  - now rewrite app_nil_r.
  - rewrite IH. unfold put. now rewrite <- app_assoc.
Qed.

(** No step sets the flag. *)
Lemma wstep_keep_alive (w w' : world Message) :
  wstep w w' ->
  keep_alive (bus w') = keep_alive (bus w) \/ keep_alive (bus w') = false.
Proof.
  intros H; destruct H; simpl; auto.
  left. unfold effect. now destruct p.
Qed.

(** *** A worker leaves only under a cleared flag *)


(** *** [__exit__] returns when every thread has ended *)

Lemma joined_worker_step (w : world Message) k i p p' ev b m :
  nth_error (control w) i = Some p ->
  step p ev = Some p' ->
  joined w k ->
  joined {| bus := b; control := update i p' (control w); main := m |} k.
Proof.
  intros Hn Hs Hj j q Hlt Hq. simpl in Hq.
  apply nth_error_update in Hq as [[-> ->] | [_ Hq]]; [| eauto].
  specialize (Hj _ _ Hlt Hn).
  rewrite (terminated_stuck _ ev Hj) in Hs. discriminate.
Qed.

Lemma shutdown_inv_reachable (self : t Message) (w : world Message) :
  reachable self w -> shutdown_inv self w.
Proof.
  induction 1 as [| w w' Hreach [Hlen IH] Hstep].
  - split; simpl; [apply length_map | exact I].
  - destruct Hstep as [w i p ev p' Hn Hs Ha | w Hm Hq | w Hm Hq
                      | w m q' Hm Hq | w Hm | w k p Hm Hn Ht | w k Hm ->];
      unfold shutdown_inv; simpl.
    + rewrite length_update. split; [assumption |].
      assert (Hflag : keep_alive (effect p (bus w)) = keep_alive (bus w))
        by (unfold effect; now destruct p).
      rewrite Hflag.
      destruct (main w); auto.
      * destruct IH as (? & ? & ?). repeat split; auto.
        eapply joined_worker_step; eauto.
      * destruct IH as (? & ?). split; auto.
        eapply joined_worker_step; eauto.
    + split; [assumption |]. rewrite Hm in *. exact I.
    + split; [assumption | exact I].
    + split; [assumption | exact I].
    + split; [assumption |]. repeat split; [lia |].
      intros j p Hlt. lia.
    + rewrite Hm in IH. destruct IH as (Hk & Hle & Hj).
      split; [assumption |]. repeat split; [assumption | |].
      * apply Nat.le_succ_l. apply nth_error_Some. now rewrite Hn.
      * intros j q Hlt Hq. simpl in Hq.
        destruct (Nat.eq_dec j k) as [-> | Hne].
        -- rewrite Hn in Hq. now injection Hq as <-.
        -- apply (Hj j q); [lia | assumption].
    + rewrite Hm in IH. destruct IH as (Hk & _ & Hj).
      split; [assumption |]. now split.
Qed.

Lemma left_means_all_joined (self : t Message) (w : world Message) :
  reachable self w -> main w = Left ->
  keep_alive (bus w) = false
  /\ Forall (fun p => terminated p = true) (control w)
  /\ List.length (control w) = List.length (interfaces self).
Proof.
  intros Hr Hm. destruct (shutdown_inv_reachable _ _ Hr) as [Hlen Hinv].
  rewrite Hm in Hinv. destruct Hinv as [Hk Hj].
  repeat split; try assumption.
  apply Forall_forall. intros p Hin.
  apply In_nth_error in Hin as [j Hj'].
  apply (Hj j p); [| assumption].
  apply nth_error_Some. now rewrite Hj'.
Qed.

(** [__exit__] begins by clearing the flag: while it is joining, and
    after it has returned, the flag is cleared. *)
Lemma joining_under_cleared_flag (self : t Message) (w : world Message) k :
  reachable self w -> main w = Joining k -> keep_alive (bus w) = false.
Proof.
  intros Hr Hm. destruct (shutdown_inv_reachable _ _ Hr) as [_ Hinv].
  rewrite Hm in Hinv. tauto.
Qed.

(** *** [get] finds a frame *)

Lemma get_never_waits (self : t Message) (w : world Message) :
  reachable self w -> main w = InNext ->
  exists m q', get_block (message_queue (bus w)) = Some (m, q').
Proof.
  assert (Hne : forall q : list Message,
             q <> [] -> exists m q', get_block q = Some (m, q')).
  { intros [| m q'] H; [contradiction | simpl; eauto]. }
  intros Hr Hm. apply Hne. revert Hm.
  induction Hr as [| w w' Hreach IH Hstep]; [discriminate |].
  destruct Hstep; simpl in *; try discriminate; try (intros; assumption);
    try (intros Hm'; congruence).
  intros Hm'. specialize (IH Hm'). unfold effect, put.
  destruct p; simpl; try assumption.
  intros Habs. apply app_eq_nil in Habs as [_ Habs]. discriminate.
Qed.

Lemma __next___cases (self : t Message) (arrived : list Message) :
  match message_queue self with
  | [] => __next__ self arrived = Some (Raises StopIteration, self)
  | m :: q =>
      __next__ self arrived
      = Some (Returns m, with_queue (q ++ arrived) self)
  end.
Proof.
  unfold __next__. destruct (message_queue self) as [| m q] eqn:E;
    [reflexivity |].
  rewrite put_app. reflexivity.
Qed.

End Multiplexer.

(** The sample worlds are worlds the bus can be in. *)

Ltac worker H i ev :=
  eapply MagicCANBus.reach_step in H;
  [| eapply (MagicCANBus.worker_step _ i _ ev);
     [reflexivity | reflexivity | simpl; auto]];
  cbn in H.

Lemma sample_left_reachable : MagicCANBus.reachable sample_bus sample_left.
Proof.
  pose proof (MagicCANBus.reach_entered sample_bus) as H.
  eapply MagicCANBus.reach_step in H;
    [| apply MagicCANBus.exit_clear; reflexivity].
  cbn in H.
  worker H 0%nat (@MagicCANBus.Call_start Z (Returns tt)).
  worker H 0%nat (@MagicCANBus.Read_keep_alive Z false).
  worker H 0%nat (@MagicCANBus.Call_stop Z (Returns tt)).
  worker H 1%nat (@MagicCANBus.Call_start Z (Returns tt)).
  worker H 1%nat (@MagicCANBus.Read_keep_alive Z false).
  worker H 1%nat (@MagicCANBus.Call_stop Z (Returns tt)).
  eapply MagicCANBus.reach_step in H;
    [| eapply (MagicCANBus.exit_join _ 0%nat); reflexivity].
  cbn in H.
  eapply MagicCANBus.reach_step in H;
    [| eapply (MagicCANBus.exit_join _ 1%nat); reflexivity].
  cbn in H.
  eapply MagicCANBus.reach_step in H;
    [| eapply (MagicCANBus.exit_return _ 2%nat); reflexivity].
  exact H.
Qed.

Lemma sample_in_next_reachable :
  MagicCANBus.reachable sample_bus sample_in_next.
Proof.
  pose proof (MagicCANBus.reach_entered sample_bus) as H.
  eapply MagicCANBus.reach_step in H;
    [| apply MagicCANBus.next_check; [reflexivity | discriminate]].
  exact H.
Qed.




(** C9.  [__next__] raises [StopIteration] at once when the queue holds
    no frame, and otherwise hands out the oldest pending frame; in neither
    case does it wait, whatever the workers enqueue in the meantime: when
    [get] is called the queue holds a frame. *)
Theorem next_never_blocks (Message : Type) :
  (forall (self : MagicCANBus.t Message) arrived,
      MagicCANBus.message_queue self = [] ->
      MagicCANBus.__next__ self arrived = Some (Raises StopIteration, self))
  /\ (forall (self : MagicCANBus.t Message) arrived m q,
         MagicCANBus.message_queue self = m :: q ->
         MagicCANBus.__next__ self arrived
         = Some (Returns m, MagicCANBus.with_queue (q ++ arrived) self))
  /\ (forall (self : MagicCANBus.t Message) arrived,
         MagicCANBus.__next__ self arrived <> None)
  /\ (forall (self : MagicCANBus.t Message) w,
         MagicCANBus.reachable self w ->
         MagicCANBus.main w = MagicCANBus.InNext ->
         exists m q',
           MagicCANBus.get_block
             (MagicCANBus.message_queue (MagicCANBus.bus w)) = Some (m, q')).
Proof.
  split; [| split; [| split]].
  - intros self arrived H.
    pose proof (__next___cases self arrived) as Hc. now rewrite H in Hc.
  - intros self arrived m q H.
    pose proof (__next___cases self arrived) as Hc. now rewrite H in Hc.
  - intros self arrived.
    pose proof (__next___cases self arrived) as Hc.
    destruct (MagicCANBus.message_queue self); rewrite Hc; discriminate.
  - intros self w. apply get_never_waits.
Qed.

Lemma next_never_blocks_witness :
  MagicCANBus.message_queue sample_bus = [0x701; 0x181]
  /\ MagicCANBus.__next__ sample_bus [0x282]
     = Some (Returns 0x701,
             MagicCANBus.with_queue ([0x181] ++ [0x282]) sample_bus)
  /\ MagicCANBus.reachable sample_bus sample_in_next
  /\ MagicCANBus.main sample_in_next = MagicCANBus.InNext
  /\ exists m q',
      MagicCANBus.get_block
        (MagicCANBus.message_queue (MagicCANBus.bus sample_in_next))
      = Some (m, q').
Proof.
  destruct (next_never_blocks Z) as (_ & Hpop & _ & Hget).
  split; [reflexivity |].
  split; [exact (Hpop sample_bus [0x282] 0x701 [0x181] eq_refl) |].
  split; [exact sample_in_next_reachable |]. split; [reflexivity |].
  exact (Hget sample_bus sample_in_next sample_in_next_reachable eq_refl).
Defined.

(** * Properties of the further code, and further properties *)

(** ** The classifier's table *)

Lemma call_value (m : MessageType.t) :
  MessageType.call (MessageType.value m) = Returns m.
Proof. destruct m; reflexivity. Qed.

Lemma call_returns (i : nat) (m : MessageType.t) :
  MessageType.call i = Returns m -> MessageType.value m = i.
Proof.
  do 16 (destruct i as [| i]; [intros [= <-]; reflexivity |]).
  discriminate.
Qed.

Lemma call_below_16 (i : nat) :
  (i < 16)%nat -> exists m, MessageType.call i = Returns m.
Proof.
  intros H. do 16 (destruct i as [| i]; [eexists; reflexivity |]). lia.
Qed.

(** What the loop of [cob_id_to_type] finds: the first row that holds the
    identifier. *)
Lemma scan_some cob_id k ranges i :
  MessageType.scan cob_id k ranges = Some i ->
  (k <= i)%nat
  /\ exists r, nth_error ranges (i - k) = Some r
               /\ MessageType.in_range cob_id r = true
               /\ forall j r', (j < i - k)%nat -> nth_error ranges j = Some r' ->
                               MessageType.in_range cob_id r' = false.
Proof.
  revert k. induction ranges as [| r0 rest IH]; intros k; simpl;
    [discriminate |].
  destruct (MessageType.in_range cob_id r0) eqn:E.
  - intros [= <-]. split; [lia |]. rewrite Nat.sub_diag. exists r0.
    repeat split; auto. intros j r' Hj. lia.
  - intros H. apply IH in H as (Hle & r & Hn & Hr & Hfirst).
    split; [lia |]. exists r.
    replace (i - k)%nat with (S (i - S k)) by lia.
    repeat split; auto.
    intros [| j] r' Hj; simpl.
    + now intros [= <-].
    + apply Hfirst. lia.
Qed.

Lemma scan_none cob_id k ranges :
  MessageType.scan cob_id k ranges = None ->
  forall r, In r ranges -> MessageType.in_range cob_id r = false.
Proof.
  revert k. induction ranges as [| r0 rest IH]; intros k; simpl;
    [intros _ r [] |].
  destruct (MessageType.in_range cob_id r0) eqn:E; [discriminate |].
  intros H r [<- | Hin]; eauto.
Qed.

(** X1.  The member [cob_id_to_type] returns is the one whose declared
    value is the index of the row found, so that the order of the rows
    (the TIME row before the EMCY row) is the order of the members; when
    no row holds the identifier the member is [UKNOWN]. *)
Theorem cob_id_to_type_row_index (cob_id : Z) :
  match MessageType.scan cob_id 0 MessageType.node_ranges with
  | Some i =>
      (i < 15)%nat
      /\ exists m, MessageType.cob_id_to_type cob_id = Returns m
                   /\ MessageType.value m = i
  | None => MessageType.cob_id_to_type cob_id = Returns MessageType.UKNOWN
  end.
Proof.
  unfold MessageType.cob_id_to_type.
  destruct (MessageType.scan cob_id 0 MessageType.node_ranges) as [i |] eqn:E;
    [| reflexivity].
  apply scan_some in E as (_ & r & Hn & _).
  assert (Hi : (i < 15)%nat).
  { rewrite Nat.sub_0_r in Hn.
    apply (proj1 (nth_error_Some MessageType.node_ranges i)).
    now rewrite Hn. }
  split; [exact Hi |].
  destruct (call_below_16 i) as [m Hm]; [lia |].
  exists m. split; [exact Hm | now apply call_returns].
Qed.

Lemma node_ranges_pairwise (cob_id : Z) (i j : nat) r1 r2 :
  nth_error MessageType.node_ranges i = Some r1 ->
  nth_error MessageType.node_ranges j = Some r2 ->
  MessageType.in_range cob_id r1 = true ->
  MessageType.in_range cob_id r2 = true ->
  i = j.
Proof.
  unfold MessageType.in_range.
  intros H1 H2 R1 R2.
  apply andb_prop in R1 as [L1 U1]. apply andb_prop in R2 as [L2 U2].
  rewrite Z.geb_leb in L1, L2.
  apply Z.leb_le in L1, U1, L2, U2.
  do 15 (destruct i as [| i];
         [ injection H1 as <-; cbn [fst snd] in *;
           do 15 (destruct j as [| j];
                  [ injection H2 as <-; cbn [fst snd] in *;
                    first [reflexivity | lia] |]);
           destruct j; discriminate H2 |]).
  destruct i; discriminate H1.
Qed.

(** X2.  No two rows of the table overlap: the row the loop finds is the
    only row that holds the identifier, whatever the order of the rows. *)
Theorem scan_finds_the_only_row (cob_id : Z) (i : nat) :
  MessageType.scan cob_id 0 MessageType.node_ranges = Some i
  <-> exists r, nth_error MessageType.node_ranges i = Some r
                /\ MessageType.in_range cob_id r = true.
Proof.
  split.
  - intros H. apply scan_some in H as (_ & r & Hn & Hr & _).
    rewrite Nat.sub_0_r in Hn. eauto.
  - intros (r & Hn & Hr).
    destruct (MessageType.scan cob_id 0 MessageType.node_ranges)
      as [j |] eqn:E.
    + apply scan_some in E as (_ & r' & Hn' & Hr' & _).
      rewrite Nat.sub_0_r in Hn'.
      f_equal. eapply node_ranges_pairwise; eauto.
    + apply scan_none with (r := r) in E;
        [congruence | eapply nth_error_In; eauto].
Qed.

(** X3.  The identifiers classified [UKNOWN] are the negative ones, the
    two gaps [0x101 .. 0x17F] and [0x681 .. 0x6FF], and those above
    [0x7FF]. *)
Theorem cob_id_to_type_UKNOWN (cob_id : Z) :
  MessageType.cob_id_to_type cob_id = Returns MessageType.UKNOWN
  <-> cob_id < 0
      \/ 0x101 <= cob_id <= 0x17F
      \/ 0x681 <= cob_id <= 0x6FF
      \/ 0x7FF < cob_id.
Proof.
  rewrite cob_id_to_type_table1.
  destruct (Z.eqb_spec cob_id 0x680) as [-> | Hne].
  - split; [discriminate | lia].
  - unfold table1, between.
    repeat match goal with
           | |- context [Z.leb ?a ?b] =>
               destruct (Z.leb_spec a b); cbn [andb]; try lia
           end;
      (split; [intros Hu; first [discriminate Hu | lia]
              | intros Hu; first [reflexivity | lia]]).
Qed.

(** X4.  From [0x180] to [0x67F] the function code is the identifier's
    upper four bits: the value of the member is [cob_id // 0x80 + 1]. *)
Theorem cob_id_to_type_function_code (cob_id : Z) :
  0x180 <= cob_id <= 0x67F ->
  exists m, MessageType.cob_id_to_type cob_id = Returns m
            /\ Z.of_nat (MessageType.value m) = cob_id / 0x80 + 1.
Proof.
  intros H. rewrite cob_id_to_type_table1.
  destruct (Z.eqb_spec cob_id 0x680); [lia |].
  pose proof (Z.div_mod cob_id 0x80 ltac:(lia)) as Hdm.
  pose proof (Z.mod_pos_bound cob_id 0x80 ltac:(lia)) as Hm.
  eexists. split; [reflexivity |].
  generalize dependent (cob_id / 0x80). generalize dependent (cob_id mod 0x80).
  intros r Hr q Hq.
  unfold table1, between.
  repeat match goal with
         | |- context [Z.leb ?a ?b] =>
             destruct (Z.leb_spec a b); cbn [andb]; try lia
         end; cbn; lia.
Qed.

Lemma cob_id_to_type_function_code_witness :
  0x180 <= 0x5A3 <= 0x67F
  /\ exists m, MessageType.cob_id_to_type 0x5A3 = Returns m
               /\ Z.of_nat (MessageType.value m) = 0x5A3 / 0x80 + 1.
Proof.
  split; [lia |]. apply (cob_id_to_type_function_code 0x5A3). lia.
Defined.

(** ** Messages *)

(** X5.  With [dead_timeout <= stale_timeout], [status] returns STALE
    only when the clock has advanced between the reading of [is_dead] and
    the reading of [is_stale]; at a single instant it never does. *)
Theorem status_STALE_needs_time :
  (forall (self : CANMsg.t) (clk : Clock.readings) (k : nat),
      CANMsg.dead_timeout self <= CANMsg.stale_timeout self ->
      Clock.result (CANMsg.status self) clk k = "STALE"%string ->
      clk k < clk (S k))
  /\ (forall (self : CANMsg.t) (now : Z) (k : nat),
         CANMsg.dead_timeout self <= CANMsg.stale_timeout self ->
         Clock.result (CANMsg.status self) (Clock.frozen now) k
         <> "STALE"%string).
Proof.
  assert (Hgen : forall (self : CANMsg.t) (clk : Clock.readings) (k : nat),
             CANMsg.dead_timeout self <= CANMsg.stale_timeout self ->
             Clock.result (CANMsg.status self) clk k = "STALE"%string ->
             clk k < clk (S k)).
  { intros self clk k Hle. rewrite status_reads.
    destruct (CANMsg.ge_seconds
                (CANMsg.total_seconds (clk k - CANMsg.timestamp self))
                (CANMsg.dead_timeout self)) eqn:Hdead; [discriminate |].
    destruct (CANMsg.ge_seconds
                (CANMsg.total_seconds (clk (S k) - CANMsg.timestamp self))
                (CANMsg.stale_timeout self)) eqn:Hstale; [| discriminate].
    intros _. destruct (Z_lt_le_dec (clk k) (clk (S k))) as [| Hback];
      [assumption | exfalso].
    apply (ge_seconds_mono _ (clk k - CANMsg.timestamp self)) in Hstale;
      [| lia].
    apply (ge_seconds_threshold _ _ _ Hle) in Hstale. congruence. }
  split; [exact Hgen |].
  intros self now k Hle Hs. apply Hgen in Hs; [| assumption].
  unfold Clock.frozen in Hs. lia.
Qed.

Lemma status_STALE_needs_time_witness :
  let self :=
    {| CANMsg.arb_id := 0x701; CANMsg.data := [5];
       CANMsg.frame_type := 1; CANMsg.interface := "can0"%string;
       CANMsg.timestamp := 0; CANMsg.extended := false;
       CANMsg.message_type := MessageType.HEARTBEAT;
       CANMsg.stale_timeout := 12; CANMsg.dead_timeout := 12;
       CANMsg.node_name := "0x701"%string |} in
  let clk := fun k : nat =>
    match k with O => seconds 12 - 1 | _ => seconds 12 end in
  Clock.result (CANMsg.status self) clk 0 = "STALE"%string
  /\ clk 0%nat < clk 1%nat
  /\ Clock.result (CANMsg.status self) (Clock.frozen (seconds 12 - 1)) 0
     <> "STALE"%string.
Proof.
  intros self clk.
  destruct status_STALE_needs_time as [Hadvance Hinstant].
  split; [vm_compute; reflexivity |]. split.
  - apply (Hadvance self clk 0%nat); [simpl; lia | vm_compute; reflexivity].
  - apply (Hinstant self (seconds 12 - 1) 0%nat). simpl. lia.
Defined.

(** X6.  At the instant of its own timestamp a message is ALIVE exactly
    when both of its thresholds are positive; with a threshold of zero or
    less it is STALE or DEAD from the start. *)
Theorem status_at_timestamp (self : CANMsg.t) (k : nat) :
  Clock.result (CANMsg.status self) (Clock.frozen (CANMsg.timestamp self)) k
  = "ALIVE"%string
  <-> 0 < CANMsg.stale_timeout self /\ 0 < CANMsg.dead_timeout self.
Proof.
  rewrite status_reads. unfold Clock.frozen. rewrite Z.sub_diag.
  rewrite !ge_seconds_zero.
  destruct (Z.leb_spec (CANMsg.dead_timeout self) 0),
           (Z.leb_spec (CANMsg.stale_timeout self) 0);
    cbn; (split; [intros Hs; first [discriminate Hs | lia]
                 | intros Hs; first [reflexivity | lia]]).
Qed.

(** X7.  [CANMsg.__init__] raises exactly what the constructor of the
    base class raises: the classifier never adds a failure.  When that
    constructor returns, the message carries what it stored, the
    classification of the identifier of [src], the name [hex(arb_id)] and
    the default thresholds, under which it is ALIVE at the instant of its
    timestamp. *)
Theorem __init___then_status Frame___init__ (src : CANMsg.Frame)
    (iface : string) (clk : Clock.readings) (k : nat) :
  match Frame___init__ (CANMsg.src_arb_id src) (CANMsg.src_data src)
          (CANMsg.src_frame_type src) iface (clk k)
          (CANMsg.src_is_extended_id src) with
  | Raises e =>
      Clock.result (CANMsg.__init__ Frame___init__ src iface None None) clk k
      = Raises e
  | Returns base =>
      exists self,
        Clock.result (CANMsg.__init__ Frame___init__ src iface None None)
          clk k
        = Returns self
        /\ MessageType.cob_id_to_type (CANMsg.src_arb_id src)
           = Returns (CANMsg.message_type self)
        /\ CANMsg.arb_id self = CANMsg.base_arb_id base
        /\ CANMsg.timestamp self = CANMsg.base_timestamp base
        /\ CANMsg.node_name self = CANMsg.hex (CANMsg.base_arb_id base)
        /\ forall k',
            Clock.result (CANMsg.status self)
              (Clock.frozen (CANMsg.timestamp self)) k'
            = "ALIVE"%string
  end.
Proof.
  rewrite __init___outcome.
  destruct (Frame___init__ _ _ _ _ _ _) as [base | e]; [| reflexivity].
  eexists. split; [reflexivity |].
  cbn [CANMsg.message_type CANMsg.arb_id CANMsg.timestamp CANMsg.node_name].
  split; [apply cob_id_to_type_table1 |].
  split; [reflexivity |]. split; [reflexivity |]. split; [reflexivity |].
  intros k'. rewrite status_reads. unfold Clock.frozen.
  cbn [CANMsg.timestamp CANMsg.dead_timeout CANMsg.stale_timeout].
  rewrite Z.sub_diag, !ge_seconds_zero. reflexivity.
Qed.

(** X8.  [__le__] compares identifiers only: it is reflexive, transitive
    and total, and holds both ways exactly between messages of the same
    identifier, whatever else distinguishes them. *)
Theorem le_preorder :
  (forall a, CANMsg.le a a = true)
  /\ (forall a b c, CANMsg.le a b = true -> CANMsg.le b c = true ->
                    CANMsg.le a c = true)
  /\ (forall a b, CANMsg.le a b = true \/ CANMsg.le b a = true)
  /\ (forall a b, CANMsg.le a b = true /\ CANMsg.le b a = true
                  <-> CANMsg.arb_id a = CANMsg.arb_id b).
Proof.
  unfold CANMsg.le. repeat split; intros.
  - apply Z.leb_refl.
  - rewrite Z.leb_le in *. lia.
  - rewrite !Z.leb_le. lia.
  - rewrite !Z.leb_le in *. lia.
  - rewrite Z.leb_le. lia.
  - rewrite Z.leb_le. lia.
Qed.

Lemma le_preorder_witness :
  CANMsg.le sample_msg sample_msg = true
  /\ CANMsg.arb_id sample_msg = CANMsg.arb_id sample_msg.
Proof.
  split; [exact (proj1 le_preorder sample_msg) |].
  apply (proj2 (proj2 (proj2 le_preorder)) sample_msg sample_msg).
  split; reflexivity.
Defined.

(** ** The dispatcher, again *)

Section DispatcherState.
Import CANOpenParser.
Context {eds sdo_state : Type}.
Variable D : Decoders eds sdo_state.

Lemma parse_cases (self : t eds sdo_state) (cob_id : Z) (data : list Z) :
  (cob_id <= 0x80 /\ parse D self cob_id data = (SYNCParser_parse D data, self))
  \/ (0x81 <= cob_id <= 0x17F
      /\ parse D self cob_id data = (EMCYParser_parse D data, self))
  \/ (0x180 <= cob_id <= 0x57F
      /\ parse D self cob_id data
         = (row <- first (eds_configs self) ;;
            e <- first row ;;
            PDOParser_parse D cob_id e data, self))
  \/ (0x580 <= cob_id <= 0x6FF
      /\ parse D self cob_id data
         = match (row <- first (eds_configs self) ;; first row) with
           | Returns e =>
               (fst (SDOParser_parse D (sdo self) cob_id e data),
                {| sdo := snd (SDOParser_parse D (sdo self) cob_id e data);
                   eds_configs := eds_configs self |})
           | Raises x => (Raises x, self)
           end)
  \/ (0x700 <= cob_id <= 0x7E3
      /\ parse D self cob_id data = (HBParser_parse D data, self))
  \/ (0x7E4 <= cob_id
      /\ parse D self cob_id data = (Returns "BAD PARSE"%string, self)).
Proof.
  destruct (Z_le_gt_dec cob_id 0x80);
    [left; split; [lia | now apply parse_SYNC] | right].
  destruct (Z_le_gt_dec cob_id 0x17F);
    [left; split; [lia | apply parse_EMCY; lia] | right].
  destruct (Z_le_gt_dec cob_id 0x57F);
    [left; split; [lia | apply parse_PDO; lia] | right].
  destruct (Z_le_gt_dec cob_id 0x6FF); [left | right].
  - split; [lia |]. unfold parse.
    repeat match goal with
           | |- context [Z.geb ?a ?b] => rewrite (Z.geb_leb a b)
           end.
    repeat match goal with
           | |- context [Z.leb ?a ?b] => destruct (Z.leb_spec a b); try lia
           | |- context [Z.ltb ?a ?b] => destruct (Z.ltb_spec a b); try lia
           end.
    cbn [andb].
    destruct (row <- first (eds_configs self);; first row); [| reflexivity].
    now destruct (SDOParser_parse D (sdo self) cob_id a data).
  - destruct (Z_le_gt_dec cob_id 0x7E3);
      [left; split; [lia | apply parse_HB; lia]
      | right; split; [lia | apply parse_BAD_PARSE; lia]].
Qed.

End DispatcherState.

(** X9.  [parse] never changes the configured dictionaries, and it leaves
    the whole dispatcher as it was for every identifier outside
    [0x580 .. 0x6FF]: only an SDO frame can change its state. *)
Theorem parse_keeps_state (eds sdo_state : Type)
    (D : CANOpenParser.Decoders eds sdo_state)
    (self : CANOpenParser.t eds sdo_state) (cob_id : Z) (data : list Z) :
  CANOpenParser.eds_configs (snd (CANOpenParser.parse D self cob_id data))
  = CANOpenParser.eds_configs self
  /\ (~ 0x580 <= cob_id <= 0x6FF ->
      snd (CANOpenParser.parse D self cob_id data) = self).
Proof.
  destruct (parse_cases D self cob_id data)
    as [[H ->] | [[H ->] | [[H ->] | [[H ->] | [[H ->] | [H ->]]]]]];
    cbn [snd]; try (split; [reflexivity | reflexivity]).
  split.
  - now destruct (row <- CANOpenParser.first (CANOpenParser.eds_configs self);;
                  CANOpenParser.first row).
  - intros Hn. lia.
Qed.

Lemma parse_keeps_state_witness :
  ~ 0x580 <= 0x181 <= 0x6FF
  /\ snd (CANOpenParser.parse CANOpenParser.naming sample_parser 0x181 [1])
     = sample_parser.
Proof.
  split; [lia |].
  apply (parse_keeps_state string unit CANOpenParser.naming sample_parser
           0x181 [1]). lia.
Defined.

(** X10.  When no dictionary entry is configured ([eds_configs] is empty,
    or its first row is), every PDO and SDO identifier
    ([0x180 .. 0x6FF]) makes [parse] raise [IndexError] and leaves the
    dispatcher unchanged; every other identifier is handled as with any
    configuration. *)
Theorem parse_without_dictionary (eds sdo_state : Type)
    (D : CANOpenParser.Decoders eds sdo_state)
    (self : CANOpenParser.t eds sdo_state) (cob_id : Z) (data : list Z) :
  (CANOpenParser.eds_configs self = []
   \/ exists rest, CANOpenParser.eds_configs self = [] :: rest) ->
  (0x180 <= cob_id <= 0x6FF ->
   CANOpenParser.parse D self cob_id data = (Raises IndexError, self))
  /\ (~ 0x180 <= cob_id <= 0x6FF ->
      forall configs,
        CANOpenParser.parse D self cob_id data
        = (fst (CANOpenParser.parse D
                  {| CANOpenParser.sdo := CANOpenParser.sdo self;
                     CANOpenParser.eds_configs := configs |} cob_id data),
           self)).
Proof.
  intros Hcfg.
  assert (Hfirst : (row <- CANOpenParser.first (CANOpenParser.eds_configs self);;
                    CANOpenParser.first row) = Raises IndexError).
  { destruct Hcfg as [-> | [rest ->]]; reflexivity. }
  split.
  - intros Hr.
    destruct (parse_cases D self cob_id data)
      as [[H ->] | [[H ->] | [[H ->] | [[H ->] | [[H ->] | [H ->]]]]]];
      try lia.
    + destruct Hcfg as [-> | [rest ->]]; reflexivity.
    + now rewrite Hfirst.
  - intros Hr configs.
    destruct (parse_cases D self cob_id data)
      as [[H ->] | [[H ->] | [[H ->] | [[H ->] | [[H ->] | [H ->]]]]]];
      try lia;
      destruct (parse_cases D
                  {| CANOpenParser.sdo := CANOpenParser.sdo self;
                     CANOpenParser.eds_configs := configs |} cob_id data)
        as [[H' ->] | [[H' ->] | [[H' ->] | [[H' ->] | [[H' ->] | [H' ->]]]]]];
      try lia; reflexivity.
Qed.

Lemma parse_without_dictionary_witness :
  CANOpenParser.parse CANOpenParser.naming
    (CANOpenParser.__init__ CANOpenParser.naming []) 0x181 [1]
  = (Raises IndexError, CANOpenParser.__init__ CANOpenParser.naming [])
  /\ CANOpenParser.parse CANOpenParser.naming
       (CANOpenParser.__init__ CANOpenParser.naming []) 0x701 [5]
     = (Returns "HB"%string, CANOpenParser.__init__ CANOpenParser.naming []).
Proof.
  destruct (parse_without_dictionary string unit CANOpenParser.naming
              (CANOpenParser.__init__ CANOpenParser.naming []) 0x181 [1])
    as [Hpdo _]; [now left |].
  destruct (parse_without_dictionary string unit CANOpenParser.naming
              (CANOpenParser.__init__ CANOpenParser.naming []) 0x701 [5])
    as [_ Hhb]; [now left |].
  split.
  - apply Hpdo. lia.
  - refine (Hhb _ []). lia.
Defined.

(** X11.  How the dispatcher follows the classifier.  A frame classified
    NMT or SYNC goes to the SYNC decoder, one classified as a PDO to the
    PDO decoder, one classified SDO_TX or SDO_RX to the SDO decoder.  A
    frame classified TIME goes to the EMCY decoder, as does every frame
    classified EMCY but [0x080], which goes to the SYNC decoder; a frame
    classified HEARTBEAT goes to the heartbeat decoder below [0x7E4] and
    to none from there on. *)
Theorem parse_follows_classifier (eds sdo_state : Type)
    (D : CANOpenParser.Decoders eds sdo_state)
    (self : CANOpenParser.t eds sdo_state) (cob_id : Z) (data : list Z)
    (m : MessageType.t) :
  MessageType.cob_id_to_type cob_id = Returns m ->
  match m with
  | MessageType.NMT | MessageType.SYNC =>
      CANOpenParser.parse D self cob_id data
      = (CANOpenParser.SYNCParser_parse D data, self)
  | MessageType.TIME =>
      CANOpenParser.parse D self cob_id data
      = (CANOpenParser.EMCYParser_parse D data, self)
  | MessageType.EMER =>
      CANOpenParser.parse D self cob_id data
      = (if cob_id =? 0x80 then CANOpenParser.SYNCParser_parse D data
         else CANOpenParser.EMCYParser_parse D data, self)
  | MessageType.PDO1_TX | MessageType.PDO1_RX
  | MessageType.PDO2_TX | MessageType.PDO2_RX
  | MessageType.PDO3_TX | MessageType.PDO3_RX
  | MessageType.PDO4_TX | MessageType.PDO4_RX =>
      CANOpenParser.parse D self cob_id data
      = (row <- CANOpenParser.first (CANOpenParser.eds_configs self) ;;
         e <- CANOpenParser.first row ;;
         CANOpenParser.PDOParser_parse D cob_id e data, self)
  | MessageType.SDO_TX | MessageType.SDO_RX =>
      forall e row rest,
        CANOpenParser.eds_configs self = (e :: row) :: rest ->
        fst (CANOpenParser.parse D self cob_id data)
        = fst (CANOpenParser.SDOParser_parse D (CANOpenParser.sdo self)
                 cob_id e data)
  | MessageType.HEARTBEAT =>
      CANOpenParser.parse D self cob_id data
      = (if cob_id <? 0x7E4 then CANOpenParser.HBParser_parse D data
         else Returns "BAD PARSE"%string, self)
  | MessageType.UKNOWN => True
  end.
Proof.
  rewrite cob_id_to_type_table1.
  destruct (Z.eqb_spec cob_id 0x680) as [-> | Hne].
  - intros [= <-]. intros e row rest He.
    rewrite (parse_SDO D self 0x680 data e row rest); [reflexivity | lia | exact He].
  - unfold table1, between.
    repeat match goal with
           | |- context [Z.leb ?a ?b] =>
               destruct (Z.leb_spec a b); cbn [andb]; try lia
           end;
      intros [= <-]; try exact I;
      try (apply parse_SYNC; lia);
      try (apply parse_EMCY; lia);
      try (apply parse_PDO; lia);
      try (intros e row rest He;
           rewrite (parse_SDO D self cob_id data e row rest);
           [reflexivity | lia | exact He]).
    + destruct (Z.eqb_spec cob_id 0x80) as [-> | Hn];
        [apply parse_SYNC; lia | apply parse_EMCY; lia].
    + destruct (Z.ltb_spec cob_id 0x7E4);
        [apply parse_HB; lia | apply parse_BAD_PARSE; lia].
Qed.

Lemma parse_follows_classifier_witness :
  MessageType.cob_id_to_type 0x100 = Returns MessageType.TIME
  /\ CANOpenParser.parse CANOpenParser.naming sample_parser 0x100 [1; 2]
     = (Returns "EMCY"%string, sample_parser).
Proof.
  split; [reflexivity |].
  exact (parse_follows_classifier string unit CANOpenParser.naming
           sample_parser 0x100 [1; 2] MessageType.TIME eq_refl).
Defined.

(** ** The handler, again *)

Section HandlerRuns.
Import MagicCANBus BusLoop.
Context {Message : Type}.

Ltac step_cases H :=
  match type of H with
  | step ?p ?ev = Some _ =>
      destruct p; destruct ev; simpl in H; unfold in_try in H;
      try discriminate H;
      repeat match type of H with
             | context [match ?x with _ => _ end] =>
                 destruct x; simpl in H; try discriminate H
             end
  end.

Lemma length_count_le (f : event Message -> bool) (tr : list (event Message)) :
  (count f tr <= List.length tr)%nat.
Proof. unfold count. apply filter_length_le. Qed.

Lemma step_descends (p q : pc Message) (ev : event Message) :
  step p ev = Some q -> reads_set_flag ev = false ->
  (S (remaining q) <= remaining p)%nat.
Proof.
  intros H Hf. step_cases H; try discriminate Hf;
    injection H as <-; simpl; lia.
Qed.

Lemma run_descends (p q : pc Message) (tr : list (event Message)) :
  run p tr = Some q ->
  Forall (fun ev => reads_set_flag ev = false) tr ->
  (List.length tr + remaining q <= remaining p)%nat.
Proof.
  revert p. induction tr as [| ev tr IH]; intros p; simpl.
  - intros [= ->] _. lia.
  - destruct (step p ev) as [p' |] eqn:E; [| discriminate].
    intros Hrun Hall. inversion Hall as [| ? ? Hev Hrest]; subst.
    specialize (IH _ Hrun Hrest). apply step_descends in E; [lia | exact Hev].
Qed.

Lemma step_recv_once (p q : pc Message) (ev : event Message) :
  step p ev = Some q -> reads_set_flag ev = false ->
  ((if is_recv ev then 1 else 0) + may_recv q <= may_recv p)%nat.
Proof.
  intros H Hf. step_cases H; try discriminate Hf;
    injection H as <-; simpl; lia.
Qed.

Lemma run_recv_once (p q : pc Message) (tr : list (event Message)) :
  run p tr = Some q ->
  Forall (fun ev => reads_set_flag ev = false) tr ->
  (count is_recv tr + may_recv q <= may_recv p)%nat.
Proof.
  revert p. induction tr as [| ev tr IH]; intros p; simpl.
  - intros [= ->] _. unfold count. simpl. lia.
  - destruct (step p ev) as [p' |] eqn:E; [| discriminate].
    intros Hrun Hall. inversion Hall as [| ? ? Hev Hrest]; subst.
    specialize (IH _ Hrun Hrest). apply step_recv_once in E; [| exact Hev].
    unfold count in *. simpl. destruct (is_recv ev); simpl; lia.
Qed.

Lemma step_to_AtRecv (p : pc Message) (ev : event Message) :
  step p ev = Some AtRecv -> p = AtIsUp /\ ev = Read_is_up (Returns true).
Proof. intros H. step_cases H; try discriminate H. now split. Qed.

Lemma step_to_AtIsUp (p : pc Message) (ev : event Message) :
  step p ev = Some AtIsUp -> p = AtInnerCheck /\ ev = Read_keep_alive true.
Proof. intros H. step_cases H; try discriminate H. now split. Qed.

Lemma step_recv_from (p q : pc Message) r :
  step p (Call_recv r) = Some q -> p = AtRecv.
Proof. intros H. destruct p; simpl in H; try discriminate H. reflexivity. Qed.

Lemma step_from_AtPut (frame : Message) (ev : event Message) (q : pc Message) :
  step (AtPut frame) ev = Some q -> ev = Call_put.
Proof. intros H. destruct ev; simpl in H; try discriminate H. reflexivity. Qed.

Lemma step_never_to_AtStart (p : pc Message) (ev : event Message) :
  step p ev <> Some AtStart.
Proof. intros H. step_cases H; discriminate H. Qed.

Lemma step_start_from (p q : pc Message) r :
  step p (Call_start r) = Some q -> p = AtStart.
Proof. intros H. destruct p; simpl in H; try discriminate H. reflexivity. Qed.

Lemma run_never_back_to_AtStart (p q : pc Message) (tr : list (event Message)) :
  p <> AtStart -> run p tr = Some q -> q <> AtStart /\ count is_start tr = 0%nat.
Proof.
  revert p. induction tr as [| ev tr IH]; intros p Hp; simpl.
  - intros [= <-]. now split.
  - destruct (step p ev) as [p' |] eqn:E; [| discriminate].
    intros Hrun.
    assert (Hp' : p' <> AtStart)
      by (intros ->; now apply step_never_to_AtStart in E).
    destruct (IH _ Hp' Hrun) as [Hq Hc]. split; [exact Hq |].
    unfold count in *. simpl.
    destruct ev; simpl; try exact Hc.
    apply step_start_from in E. contradiction.
Qed.

Lemma step_stop (p q : pc Message) r :
  step p (Call_stop r) = Some q -> p = AtStop /\ terminated q = true.
Proof.
  intros H. destruct p; simpl in H; try discriminate H.
  destruct r; injection H as <-; now split.
Qed.

Lemma step_queue (p q : pc Message) (ev : event Message) (self : t Message) :
  step p ev = Some q ->
  message_queue (effect p self) ++ held q
  = message_queue self ++ held p ++ frames_received [ev].
Proof.
  intros H. step_cases H; injection H as <-; simpl;
    unfold put; rewrite ?app_nil_r; reflexivity.
Qed.

Lemma effect_keeps (p : pc Message) (self : t Message) :
  interfaces (effect p self) = interfaces self
  /\ keep_alive (effect p self) = keep_alive self
  /\ threads (effect p self) = threads self.
Proof. destruct p; repeat split. Qed.

Lemma run_on_queue (p q : pc Message) (self self' : t Message)
    (tr : list (event Message)) :
  run_on p self tr = Some (q, self') ->
  message_queue self' ++ held q
  = message_queue self ++ held p ++ frames_received tr
  /\ run p tr = Some q
  /\ interfaces self' = interfaces self
  /\ keep_alive self' = keep_alive self
  /\ threads self' = threads self.
Proof.
  revert p self. induction tr as [| ev tr IH]; intros p self; simpl.
  - intros [= -> ->]. rewrite app_nil_r. now repeat split.
  - destruct (step p ev) as [p' |] eqn:E; [| discriminate].
    intros Hon. destruct (IH _ _ Hon) as (Hq & Hrun & Hi & Hk & Ht).
    destruct (effect_keeps p self) as (Hi' & Hk' & Ht').
    split; [| repeat split; congruence].
    rewrite Hq. pose proof (step_queue p p' ev self E) as Hs.
    simpl in Hs. rewrite app_nil_r in Hs.
    rewrite !app_assoc. f_equal. rewrite <- !app_assoc. exact Hs.
Qed.

End HandlerRuns.

(** X12.  Once the flag reads cleared at every check, a worker is done
    within eight further steps, whatever its calls return or raise, and
    calls [recv] at most once more. *)
Theorem worker_stops_within_eight (Message : Type)
    (p q : MagicCANBus.pc Message) (tr : list (MagicCANBus.event Message)) :
  MagicCANBus.run p tr = Some q ->
  Forall (fun ev => BusLoop.reads_set_flag ev = false) tr ->
  (List.length tr <= 8)%nat
  /\ (MagicCANBus.count BusLoop.is_recv tr <= 1)%nat
  /\ (List.length tr = 8%nat -> MagicCANBus.terminated q = true).
Proof.
  intros Hrun Hall.
  pose proof (run_descends p q tr Hrun Hall) as Hd.
  pose proof (run_recv_once p q tr Hrun Hall) as Hr.
  assert (Hp : (BusLoop.remaining p <= 8)%nat) by (destruct p; simpl; lia).
  assert (Hm : (BusLoop.may_recv p <= 1)%nat) by (destruct p; simpl; lia).
  repeat split; try lia.
  intros Hl. assert (Hq : BusLoop.remaining q = 0%nat) by lia.
  destruct q; simpl in Hq; try discriminate Hq; reflexivity.
Qed.

Lemma worker_stops_within_eight_witness :
  MagicCANBus.run MagicCANBus.AtIsUp sample_last_steps
  = Some MagicCANBus.Exited
  /\ MagicCANBus.terminated (MagicCANBus.Exited : MagicCANBus.pc Z) = true.
Proof.
  split; [reflexivity |].
  refine (proj2 (proj2
            (worker_stops_within_eight Z MagicCANBus.AtIsUp MagicCANBus.Exited
               sample_last_steps eq_refl _)) eq_refl).
  repeat (apply Forall_cons; [reflexivity |]). apply Forall_nil.
Defined.

(** X13.  A worker calls [recv] only right after it has read the flag set
    and then the channel up: in every run from the start of the handler,
    the two events before a call of [recv] are those two reads. *)
Theorem recv_only_when_set_and_up (Message : Type)
    (tr1 tr2 : list (MagicCANBus.event Message)) r (q : MagicCANBus.pc Message) :
  MagicCANBus.run MagicCANBus.AtStart (tr1 ++ MagicCANBus.Call_recv r :: tr2)
  = Some q ->
  exists tr0,
    tr1 = tr0 ++ [ MagicCANBus.Read_keep_alive true;
                   MagicCANBus.Read_is_up (Returns true) ].
Proof.
  rewrite run_app.
  destruct (MagicCANBus.run MagicCANBus.AtStart tr1) as [p |] eqn:E1;
    [| discriminate].
  simpl. destruct (MagicCANBus.step p (MagicCANBus.Call_recv r)) as [p' |] eqn:E;
    [| discriminate].
  intros _. apply step_recv_from in E. subst p.
  destruct (last_event tr1) as [-> | (ev2 & tr1' & ->)]; [discriminate E1 |].
  apply run_snoc in E1 as (p2 & Hrun2 & Hstep2).
  apply step_to_AtRecv in Hstep2 as [-> ->].
  destruct (last_event tr1') as [-> | (ev1 & tr0 & ->)]; [discriminate Hrun2 |].
  apply run_snoc in Hrun2 as (p1 & Hrun1 & Hstep1).
  apply step_to_AtIsUp in Hstep1 as [-> ->].
  exists tr0. now rewrite <- app_assoc.
Qed.

Lemma recv_only_when_set_and_up_witness :
  exists tr0,
    removelast sample_first_frame
    = tr0 ++ [ MagicCANBus.Read_keep_alive true;
               MagicCANBus.Read_is_up (Returns true) ].
Proof.
  exact (recv_only_when_set_and_up Z (removelast sample_first_frame)
           [] (Returns (Some 0x181)) (MagicCANBus.AtPut 0x181) eq_refl).
Defined.

(** X14.  A worker enqueues every frame [recv] hands it, and nothing
    else: in every run from the start of the handler the queue ends up as
    it was, followed by the frames [recv] returned, in the order received,
    but for the one frame the worker may still hold; a frame received is
    followed at once by [put]; a [recv] that returns [None] puts nothing;
    and the worker changes nothing of the bus but its queue. *)
Theorem every_frame_is_put (Message : Type) (self self' : MagicCANBus.t Message)
    (tr : list (MagicCANBus.event Message)) (q : MagicCANBus.pc Message) :
  BusLoop.run_on MagicCANBus.AtStart self tr = Some (q, self') ->
  MagicCANBus.message_queue self' ++ BusLoop.held q
  = MagicCANBus.message_queue self ++ BusLoop.frames_received tr
  /\ MagicCANBus.run MagicCANBus.AtStart tr = Some q
  /\ (forall tr1 tr2 frame ev,
         tr = tr1 ++ MagicCANBus.Call_recv (Returns (Some frame)) :: ev :: tr2 ->
         ev = MagicCANBus.Call_put)
  /\ MagicCANBus.interfaces self' = MagicCANBus.interfaces self
  /\ MagicCANBus.keep_alive self' = MagicCANBus.keep_alive self
  /\ MagicCANBus.threads self' = MagicCANBus.threads self.
Proof.
  intros Hon.
  pose proof (run_on_queue _ _ _ _ _ Hon) as (Hq & Hrun & Hi & Hk & Ht).
  simpl in Hq.
  split; [exact Hq |]. split; [exact Hrun |].
  split; [| now repeat split].
  intros tr1 tr2 frame ev ->. rewrite run_app in Hrun.
  destruct (MagicCANBus.run MagicCANBus.AtStart tr1) as [p |];
    [| discriminate].
  simpl in Hrun.
  destruct (MagicCANBus.step p (MagicCANBus.Call_recv (Returns (Some frame))))
    as [p' |] eqn:E; [| discriminate].
  pose proof (step_recv_from _ _ _ E) as ->. simpl in E.
  injection E as <-.
  destruct (MagicCANBus.step (MagicCANBus.AtPut frame) ev) as [p'' |] eqn:E2;
    [| discriminate].
  now apply step_from_AtPut in E2.
Qed.

Lemma every_frame_is_put_witness :
  BusLoop.run_on MagicCANBus.AtStart sample_bus sample_two_frames
  = Some (MagicCANBus.AtPut 0x282,
          MagicCANBus.with_queue [0x701; 0x181; 0x181] sample_bus)
  /\ [0x701; 0x181; 0x181] ++ [0x282]
     = [0x701; 0x181] ++ BusLoop.frames_received sample_two_frames.
Proof.
  split; [reflexivity |].
  exact (proj1 (every_frame_is_put Z sample_bus
                  (MagicCANBus.with_queue [0x701; 0x181; 0x181] sample_bus)
                  sample_two_frames (MagicCANBus.AtPut 0x282) eq_refl)).
Defined.

(** X15.  A worker calls [start] once, first of all, and [stop] at most
    once, last of all: in every run from the start of the handler no
    [start] follows the first event, and nothing follows a [stop]. *)
Theorem start_first_stop_last (Message : Type)
    (tr : list (MagicCANBus.event Message)) (q : MagicCANBus.pc Message) :
  MagicCANBus.run MagicCANBus.AtStart tr = Some q ->
  (tr = [] \/ exists r tr', tr = MagicCANBus.Call_start r :: tr'
                            /\ MagicCANBus.count BusLoop.is_start tr' = 0%nat)
  /\ (forall tr1 tr2 r, tr = tr1 ++ MagicCANBus.Call_stop r :: tr2 -> tr2 = [])
  /\ (MagicCANBus.count BusLoop.is_stop tr <= 1)%nat.
Proof.
  intros Hrun.
  assert (Hlast : forall tr1 tr2 r,
             tr = tr1 ++ MagicCANBus.Call_stop r :: tr2 -> tr2 = []).
  { intros tr1 tr2 r ->. rewrite run_app in Hrun.
    destruct (MagicCANBus.run MagicCANBus.AtStart tr1) as [p |];
      [| discriminate].
    simpl in Hrun.
    destruct (MagicCANBus.step p (MagicCANBus.Call_stop r)) as [p' |] eqn:E;
      [| discriminate].
    apply step_stop in E as [_ Ht].
    destruct tr2 as [| ev tr2]; [reflexivity |].
    simpl in Hrun. now rewrite (terminated_stuck p' ev Ht) in Hrun. }
  split; [| split; [exact Hlast |]].
  - destruct tr as [| ev tr']; [now left | right].
    destruct ev; simpl in Hrun; try discriminate Hrun.
    exists r, tr'. split; [reflexivity |].
    destruct r;
      (eapply run_never_back_to_AtStart; [| exact Hrun]; discriminate).
  - clear Hrun. induction tr as [| ev tr IH] using rev_ind.
    + unfold MagicCANBus.count. simpl. lia.
    + rewrite count_app.
      assert (Hfilter : forall tr1 tr2 r,
                 tr = tr1 ++ MagicCANBus.Call_stop r :: tr2 -> False).
      { intros tr1 tr2 r ->.
        specialize (Hlast tr1 (tr2 ++ [ev]) r).
        rewrite <- app_assoc in Hlast. simpl in Hlast.
        specialize (Hlast eq_refl). now destruct tr2. }
      assert (Hzero : MagicCANBus.count BusLoop.is_stop tr = 0%nat).
      { clear IH Hlast. unfold MagicCANBus.count.
        induction tr as [| e tr IH]; [reflexivity |].
        simpl. destruct e; simpl;
          try (apply IH; intros tr1 tr2 r0 ->;
               eapply (Hfilter (_ :: tr1)); reflexivity).
        exfalso. eapply (Hfilter []). reflexivity. }
      rewrite Hzero. unfold MagicCANBus.count. simpl.
      destruct (BusLoop.is_stop ev); simpl; lia.
Qed.

Lemma start_first_stop_last_witness :
  (MagicCANBus.count BusLoop.is_stop sample_run <= 1)%nat.
Proof.
  exact (proj2 (proj2
           (start_first_stop_last Z sample_run MagicCANBus.Exited eq_refl))).
Defined.

(** ** Iterating over the bus *)

Section BusIteration.
Import MagicCANBus BusLoop.
Context {Message : Type}.

(** X16.  A loop over the bus yields the frames in the order they were
    enqueued, each once: the frames yielded, followed by those still
    pending, are the frames pending at the start followed by the arrivals
    around the calls made, the call that ended the loop included.  When
    the loop ends, what is pending is what arrived while its last call
    ran, and the loop touches nothing of the bus but its queue. *)
Theorem for_each_fifo (schedule : list (list Message * list Message))
    (self : t Message) :
  let '(yielded, self', ended) := for_each schedule self in
  let calls := (List.length yielded + if ended then 1 else 0)%nat in
  yielded ++ message_queue self'
  = message_queue self ++ flat_map arrivals (firstn calls schedule)
  /\ (ended = true ->
      message_queue self'
      = snd (nth (List.length yielded) schedule ([], []))
      /\ fst (nth (List.length yielded) schedule ([], [])) = []
      /\ (List.length yielded < List.length schedule)%nat)
  /\ interfaces self' = interfaces self
  /\ keep_alive self' = keep_alive self
  /\ threads self' = threads self.
Proof.
  revert self. induction schedule as [| [before during] rest IH]; intros self.
  - simpl. rewrite app_nil_r. repeat split; discriminate.
  - cbn [for_each]. rewrite put_app.
    pose proof (__next___cases
                  (with_queue (message_queue self ++ before) self) during)
      as Hc.
    cbn [message_queue with_queue] in Hc.
    destruct (message_queue self ++ before) as [| m q'] eqn:E.
    + rewrite Hc. rewrite put_app.
      cbn [message_queue with_queue List.length firstn flat_map Nat.add nth
           interfaces keep_alive threads fst snd].
      apply app_eq_nil in E as [-> ->].
      unfold arrivals. cbn [fst snd app]. rewrite app_nil_r.
      repeat split. simpl. lia.
    + rewrite Hc.
      specialize (IH (with_queue (q' ++ during) (with_queue (m :: q') self))).
      destruct (for_each rest
                  (with_queue (q' ++ during) (with_queue (m :: q') self)))
        as [[yielded self3] ended].
      cbn [message_queue with_queue interfaces keep_alive threads] in IH.
      cbv zeta in IH |- *.
      destruct IH as (Hcons & Hend & Hi & Hk & Ht).
      split; [| split; [| now repeat split]].
      * cbn [List.length firstn flat_map Nat.add]. unfold arrivals at 1.
        cbn [fst snd].
        rewrite <- app_comm_cons, Hcons.
        rewrite !app_assoc. rewrite E. reflexivity.
      * intros He. destruct (Hend He) as (H1 & H2 & H3).
        cbn [List.length nth]. repeat split; [assumption | assumption |].
        simpl. lia.
Qed.

(** X17.  While no worker enqueues, a loop over the bus yields exactly
    the pending frames, oldest first, and ends with the call after the
    last of them, leaving the queue empty. *)
Theorem for_each_without_arrivals (self : t Message) (n : nat) :
  for_each (repeat ([], []) (S (List.length (message_queue self) + n))) self
  = (message_queue self, with_queue [] self, true).
Proof.
  remember (message_queue self) as q eqn:Hq.
  revert self Hq. induction q as [| m q IH]; intros self Hq.
  - change (repeat ([], []) (S (List.length (@nil Message) + n)))
      with ((@nil Message, @nil Message) :: repeat ([], []) n).
    cbn [for_each fold_left]. rewrite <- Hq.
    pose proof (__next___cases (with_queue [] self) []) as Hc.
    cbn [message_queue with_queue] in Hc. rewrite Hc. reflexivity.
  - change (repeat ([], []) (S (List.length (m :: q) + n)))
      with ((@nil Message, @nil Message)
              :: repeat ([], []) (S (List.length q + n))).
    cbn [for_each fold_left]. rewrite <- Hq.
    pose proof (__next___cases (with_queue (m :: q) self) []) as Hc.
    cbn [message_queue with_queue] in Hc. rewrite Hc. rewrite app_nil_r.
    specialize (IH (with_queue q (with_queue (m :: q) self)) eq_refl).
    rewrite IH. reflexivity.
Qed.

End BusIteration.

(** ** The bus with its threads, again *)

Section Shutdown.
Import MagicCANBus BusLoop.
Context {Message : Type}.

Lemma nth_error_update_eq {A : Type} (i : nat) (x : A) (l : list A) :
  (i < List.length l)%nat -> nth_error (update i x l) i = Some x.
Proof.
  revert i. induction l as [| y l IH]; intros [| i]; simpl; try lia; auto.
  intros H. apply IH. lia.
Qed.

Lemma nth_error_update_neq {A : Type} (i j : nat) (x : A) (l : list A) :
  i <> j -> nth_error (update i x l) j = nth_error l j.
Proof.
  revert i j. induction l as [| y l IH]; intros [| i] [| j]; simpl;
    try reflexivity; try lia.
  intros H. apply IH. lia.
Qed.

Lemma wsteps_trans (w1 w2 w3 : world Message) :
  wsteps w1 w2 -> wsteps w2 w3 -> wsteps w1 w3.
Proof.
  induction 1 as [| a b c Hab Hbc IH]; [auto |].
  intros H. eapply wsteps_step; eauto.
Qed.

Lemma reachable_wsteps (self : t Message) (w w' : world Message) :
  reachable self w -> wsteps w w' -> reachable self w'.
Proof.
  intros Hr Hs. induction Hs as [| a b c Hab Hbc IH]; [assumption |].
  apply IH. eapply reach_step; eauto.
Qed.

(** The owner of the block moves forward only. *)
Lemma wstep_main (w w' : world Message) :
  wstep w w' ->
  match main w with
  | InWith | InNext => True
  | Joining k => main w' = Joining k \/ main w' = Joining (S k) \/ main w' = Left
  | Left => main w' = Left
  end.
Proof.
  intros H; destruct H; simpl;
    repeat match goal with Hm : main _ = _ |- _ => rewrite Hm; clear Hm end;
    auto.
  destruct (main w); auto.
Qed.

(** Every worker that has not ended can make a step that reads no set
    flag and raises nothing. *)
Lemma worker_can_step (p : pc Message) :
  terminated p = false ->
  exists ev p',
    step p ev = Some p'
    /\ (forall b, ev = Read_keep_alive b -> b = false)
    /\ (remaining p' < remaining p)%nat.
Proof.
  intros Ht. destruct p; try discriminate Ht.
  - exists (Call_start (Returns tt)), AtOuterCheck.
    repeat split; [discriminate | simpl; lia].
  - exists (Read_keep_alive false), AtStop.
    repeat split; [now intros b [= <-] | simpl; lia].
  - exists (Read_keep_alive false), AtRestart.
    repeat split; [now intros b [= <-] | simpl; lia].
  - exists (Read_is_up (Returns false)), AtRestart.
    repeat split; [discriminate | simpl; lia].
  - exists (Call_recv (Returns None)), AtInnerCheck.
    repeat split; [discriminate | simpl; lia].
  - exists Call_put, AtInnerCheck.
    repeat split; [discriminate | simpl; lia].
  - exists (Call_restart (Returns tt)), AtOuterCheck.
    repeat split; [discriminate | simpl; lia].
  - exists (Call_restart (Returns tt)), AtOuterCheck.
    repeat split; [discriminate | simpl; lia].
  - exists (Call_stop (Returns tt)), Exited.
    repeat split; [discriminate | simpl; lia].
Qed.

(** Under a cleared flag any one worker can be run to its end, the others
    and the owner of the block standing still. *)
Lemma worker_can_end (n : nat) :
  forall (w : world Message) (i : nat) (p : pc Message),
    (remaining p <= n)%nat ->
    nth_error (control w) i = Some p ->
    keep_alive (bus w) = false ->
    exists w',
      wsteps w w'
      /\ main w' = main w
      /\ keep_alive (bus w') = false
      /\ List.length (control w') = List.length (control w)
      /\ (exists p', nth_error (control w') i = Some p'
                     /\ terminated p' = true)
      /\ (forall j, j <> i ->
                    nth_error (control w') j = nth_error (control w) j)
      /\ (terminated p = true -> w' = w).
Proof.
  induction n as [| n IH]; intros w i p Hn Hi Hk.
  - exists w. repeat split; auto using wsteps_refl.
    exists p. split; [assumption |].
    destruct p; simpl in Hn; try lia; reflexivity.
  - destruct (terminated p) eqn:Ht.
    + exists w. repeat split; auto using wsteps_refl. eauto.
    + destruct (worker_can_step p Ht) as (ev & p' & Hs & Hev & Hlt).
      assert (Ha : agrees (bus w) ev).
      { destruct ev; simpl; auto. rewrite Hk. now apply Hev. }
      pose proof (worker_step w i p ev p' Hi Hs Ha) as Hw.
      set (w1 := {| bus := effect p (bus w);
                    control := update i p' (control w);
                    main := main w |}) in *.
      assert (Hlen : (i < List.length (control w))%nat)
        by (apply nth_error_Some; now rewrite Hi).
      assert (Hk1 : keep_alive (bus w1) = false)
        by (simpl; unfold effect; destruct p; simpl; assumption).
      destruct (IH w1 i p' ltac:(lia)
                  (nth_error_update_eq i p' (control w) Hlen) Hk1)
        as (w' & Hsteps & Hm & Hk' & Hl & Hp & Hothers & _).
      exists w'. split; [eapply wsteps_step; eauto |].
      split; [exact Hm |]. split; [exact Hk' |].
      split; [rewrite Hl; simpl; apply length_update |].
      split; [exact Hp |].
      split; [| discriminate].
      intros j Hj. rewrite (Hothers j Hj). simpl.
      apply nth_error_update_neq. auto.
Qed.

(** Under a cleared flag all workers can be run to their ends. *)
Lemma workers_can_end (n : nat) :
  forall w : world Message,
    keep_alive (bus w) = false ->
    exists w',
      wsteps w w'
      /\ main w' = main w
      /\ keep_alive (bus w') = false
      /\ List.length (control w') = List.length (control w)
      /\ (forall j p, (j < n)%nat -> nth_error (control w') j = Some p ->
                      terminated p = true)
      /\ (forall j p, nth_error (control w) j = Some p ->
                      terminated p = true ->
                      nth_error (control w') j = Some p).
Proof.
  induction n as [| n IH]; intros w Hk.
  - exists w. repeat split; auto using wsteps_refl. intros j p Hj. lia.
  - destruct (IH w Hk) as (w1 & Hs1 & Hm1 & Hk1 & Hl1 & Hdone1 & Hkeep1).
    destruct (nth_error (control w1) n) as [p |] eqn:En.
    + destruct (worker_can_end (remaining p) w1 n p (le_n _) En Hk1)
        as (w2 & Hs2 & Hm2 & Hk2 & Hl2 & (p' & Hp' & Ht') & Hothers & Hsame).
      exists w2. split; [eapply wsteps_trans; eauto |].
      split; [congruence |]. split; [assumption |].
      split; [congruence |]. split.
      * intros j q Hj Hq.
        destruct (Nat.eq_dec j n) as [-> | Hne].
        -- rewrite Hp' in Hq. now injection Hq as <-.
        -- rewrite (Hothers j Hne) in Hq. apply (Hdone1 j q); [lia | exact Hq].
      * intros j q Hq Ht. specialize (Hkeep1 j q Hq Ht).
        destruct (Nat.eq_dec j n) as [-> | Hne].
        -- rewrite En in Hkeep1. injection Hkeep1 as ->.
           rewrite (Hsame Ht). exact En.
        -- now rewrite (Hothers j Hne).
    + exists w1. repeat split; auto.
      intros j q Hj Hq.
      destruct (Nat.eq_dec j n) as [-> | Hne]; [congruence |].
      apply (Hdone1 j q); [lia | exact Hq].
Qed.

End Shutdown.

Section ShutdownCompletes.
Import MagicCANBus BusLoop.
Context {Message : Type}.

Lemma joins_can_complete (d : nat) :
  forall (w : world Message) (k : nat),
    main w = Joining k ->
    (k + d)%nat = List.length (control w) ->
    (forall j p, nth_error (control w) j = Some p -> terminated p = true) ->
    exists w', wsteps w w' /\ main w' = Left
               /\ bus w' = bus w /\ control w' = control w.
Proof.
  induction d as [| d IH]; intros w k Hm Hk Hall.
  - exists {| bus := bus w; control := control w; main := Left |}.
    split; [| split; [reflexivity | split; reflexivity]].
    eapply wsteps_step; [| apply wsteps_refl].
    apply (exit_return w k Hm). lia.
  - destruct (nth_error (control w) k) as [p |] eqn:En.
    + pose proof (exit_join w k p Hm En (Hall k p En)) as Hstep.
      destruct (IH {| bus := bus w; control := control w;
                      main := Joining (S k) |} (S k) eq_refl
                  ltac:(simpl; lia) Hall)
        as (w' & Hs & Hl & Hb & Hc).
      exists w'. split; [eapply wsteps_step; eauto |]. auto.
    + apply nth_error_None in En. lia.
Qed.

Lemma exit_can_complete_from_joining (self : t Message) (w : world Message)
    (k : nat) :
  reachable self w -> main w = Joining k ->
  exists w', wsteps w w' /\ main w' = Left.
Proof.
  intros Hr Hm.
  pose proof (joining_under_cleared_flag self w k Hr Hm) as Hk.
  destruct (workers_can_end (List.length (control w)) w Hk)
    as (w1 & Hs1 & Hm1 & Hk1 & Hl1 & Hdone & _).
  pose proof (reachable_wsteps self w w1 Hr Hs1) as Hr1.
  destruct (shutdown_inv_reachable self w1 Hr1) as [_ Hinv].
  rewrite Hm1, Hm in Hinv. destruct Hinv as (_ & Hle & _).
  destruct (joins_can_complete (List.length (control w1) - k) w1 k)
    as (w2 & Hs2 & Hm2 & _); [congruence | lia | |].
  - intros j p Hj. apply (Hdone j p); [| exact Hj].
    rewrite <- Hl1. apply nth_error_Some. now rewrite Hj.
  - exists w2. split; [eapply wsteps_trans; eauto | exact Hm2].
Qed.

End ShutdownCompletes.

(** X18.  When [__exit__] has returned the bus is at rest: no thread can
    make another step, so nothing is enqueued or restarted any more. *)
Theorem at_rest_after_exit (Message : Type)
    (self : MagicCANBus.t Message) (w w' : MagicCANBus.world Message) :
  MagicCANBus.reachable self w ->
  MagicCANBus.main w = MagicCANBus.Left ->
  ~ MagicCANBus.wstep w w'.
Proof.
  intros Hr Hm Hstep.
  destruct (left_means_all_joined self w Hr Hm) as (_ & Hall & _).
  destruct Hstep as [w i p ev p' Hn Hs Ha | w Hm' Hq | w Hm' Hq
                    | w m q' Hm' Hq | w Hm' | w k p Hm' Hn Ht | w k Hm' Hk];
    try congruence.
  rewrite Forall_forall in Hall.
  specialize (Hall p (nth_error_In _ _ Hn)).
  rewrite (terminated_stuck p ev Hall) in Hs. discriminate.
Qed.

Lemma at_rest_after_exit_witness :
  MagicCANBus.reachable sample_bus sample_left
  /\ ~ MagicCANBus.wstep sample_left sample_in_next.
Proof.
  split; [exact sample_left_reachable |].
  exact (at_rest_after_exit Z sample_bus sample_left sample_in_next
           sample_left_reachable eq_refl).
Defined.

(** X19.  Shutdown is not undone: once the flag is cleared no step sets
    it again, and once [__exit__] is joining it only moves on to later
    threads or returns. *)
Theorem shutdown_is_final (Message : Type)
    (w w' : MagicCANBus.world Message) :
  BusLoop.wsteps w w' ->
  (MagicCANBus.keep_alive (MagicCANBus.bus w) = false ->
   MagicCANBus.keep_alive (MagicCANBus.bus w') = false)
  /\ (forall k, MagicCANBus.main w = MagicCANBus.Joining k ->
                MagicCANBus.main w' = MagicCANBus.Left
                \/ exists k', (k <= k')%nat
                              /\ MagicCANBus.main w' = MagicCANBus.Joining k')
  /\ (MagicCANBus.main w = MagicCANBus.Left ->
      MagicCANBus.main w' = MagicCANBus.Left).
Proof.
  induction 1 as [w | w1 w2 w3 Hstep Hsteps (IHk & IHj & IHl)].
  - repeat split; auto. intros k Hm. right. exists k. split; [lia | exact Hm].
  - pose proof (wstep_keep_alive _ _ Hstep) as Hflag.
    pose proof (wstep_main _ _ Hstep) as Hmain.
    repeat split.
    + intros Hk. apply IHk. destruct Hflag as [-> | ->]; auto.
    + intros k Hm. rewrite Hm in Hmain.
      destruct Hmain as [H2 | [H2 | H2]].
      * apply (IHj k H2).
      * destruct (IHj (S k) H2) as [Hl | (k' & Hle & Hk')];
          [now left | right; exists k'; split; [lia | exact Hk']].
      * left. now apply IHl.
    + intros Hm. rewrite Hm in Hmain. now apply IHl.
Qed.

Lemma sample_joining_steps : BusLoop.wsteps sample_joining sample_left.
Proof.
  eapply BusLoop.wsteps_step;
    [eapply (MagicCANBus.exit_join _ 0%nat MagicCANBus.Exited); reflexivity |].
  eapply BusLoop.wsteps_step;
    [eapply (MagicCANBus.exit_join _ 1%nat MagicCANBus.Exited); reflexivity |].
  eapply BusLoop.wsteps_step;
    [eapply (MagicCANBus.exit_return _ 2%nat); reflexivity |].
  apply BusLoop.wsteps_refl.
Qed.

Lemma shutdown_is_final_witness :
  BusLoop.wsteps sample_joining sample_left
  /\ MagicCANBus.keep_alive (MagicCANBus.bus sample_left) = false
  /\ (MagicCANBus.main sample_left = MagicCANBus.Left
      \/ exists k', (0 <= k')%nat
                    /\ MagicCANBus.main sample_left = MagicCANBus.Joining k').
Proof.
  split; [exact sample_joining_steps |].
  destruct (shutdown_is_final Z sample_joining sample_left
              sample_joining_steps) as (Hflag & Hjoin & _).
  split; [exact (Hflag eq_refl) | exact (Hjoin 0%nat eq_refl)].
Defined.

(** X20.  The block can always be left: from every state the bus and its
    threads can reach there is a continuation at whose end [__exit__] has
    returned.  No reachable state is a deadlock of the shutdown. *)
Theorem exit_can_complete (Message : Type)
    (self : MagicCANBus.t Message) (w : MagicCANBus.world Message) :
  MagicCANBus.reachable self w ->
  exists w', BusLoop.wsteps w w'
             /\ MagicCANBus.main w' = MagicCANBus.Left.
Proof.
  intros Hr.
  assert (Hwith : forall w0, MagicCANBus.reachable self w0 ->
                             MagicCANBus.main w0 = MagicCANBus.InWith ->
                             exists w', BusLoop.wsteps w0 w'
                                        /\ MagicCANBus.main w' = MagicCANBus.Left).
  { intros w0 Hr0 Hm0.
    pose proof (MagicCANBus.exit_clear w0 Hm0) as Hstep.
    destruct (exit_can_complete_from_joining self _ 0
                (MagicCANBus.reach_step self _ _ Hr0 Hstep) eq_refl)
      as (w' & Hs & Hl).
    exists w'. split; [eapply BusLoop.wsteps_step; eauto | exact Hl]. }
  destruct (MagicCANBus.main w) as [| | k |] eqn:Hm.
  - now apply Hwith.
  - destruct (get_never_waits self w Hr Hm) as (m & q' & Hget).
    pose proof (MagicCANBus.next_get w m q' Hm Hget) as Hstep.
    destruct (Hwith _ (MagicCANBus.reach_step self _ _ Hr Hstep) eq_refl)
      as (w' & Hs & Hl).
    exists w'. split; [eapply BusLoop.wsteps_step; eauto | exact Hl].
  - now apply (exit_can_complete_from_joining self w k).
  - exists w. split; [apply BusLoop.wsteps_refl | exact Hm].
Qed.

Lemma exit_can_complete_witness :
  MagicCANBus.reachable sample_bus sample_in_next
  /\ exists w', BusLoop.wsteps sample_in_next w'
                /\ MagicCANBus.main w' = MagicCANBus.Left.
Proof.
  split; [exact sample_in_next_reachable |].
  exact (exit_can_complete Z sample_bus sample_in_next
           sample_in_next_reachable).
Defined.

(** ** The pane *)

Section PaneProperties.
Import Pane.
Variable color_pair : Z -> Z.
Variables A_BOLD A_REVERSE : Z.

Lemma geometry_reset (self : t) :
  _pad self = (v_height self, v_width self) ->
  geometry (reset_draw_dimensions self).
Proof.
  unfold geometry, reset_draw_dimensions.
  destruct (parent self) as [p_height p_width] eqn:E.
  intros H. cbn. rewrite ?E. cbn. repeat split; rewrite ?E; auto.
Qed.

Lemma geometry_resize (height width : Z) (self : t) :
  geometry (fst (resize height width self))
  /\ v_height (fst (resize height width self)) = height
  /\ v_width (fst (resize height width self)) = width
  /\ parent (fst (resize height width self)) = parent self.
Proof.
  unfold geometry, resize, reset_draw_dimensions.
  destruct (parent self) as [p_height p_width] eqn:E.
  cbn. rewrite ?E. cbn. repeat split; rewrite ?E; reflexivity.
Qed.

Lemma add_line_state (y x : Z) (line : string) (bold highlight : bool)
    (self : t) :
  geometry self ->
  let self' := fst (add_line A_BOLD A_REVERSE y x line bold highlight self) in
  geometry self'
  /\ parent self' = parent self
  /\ v_width self' = Z.max (v_width self) (x + len line)
  /\ v_height self' = (if y >? v_height self then y + 1 else v_height self).
Proof.
  intros Hg. unfold add_line.
  destruct (Z.gtb_spec (len line + x) (v_width self)) as [Hw | Hw].
  - pose proof (geometry_resize (v_height self) (len line + x) self)
      as (Hg1 & Hh1 & Hw1 & Hp1).
    destruct (resize (v_height self) (len line + x) self) as [self1 calls1].
    cbn [fst] in *. rewrite Hh1.
    destruct (Z.gtb_spec y (v_height self)) as [Hy | Hy].
    + pose proof (geometry_resize (y + 1) (v_width self1) self1)
        as (Hg2 & Hh2 & Hw2 & Hp2).
      destruct (resize (y + 1) (v_width self1) self1) as [self2 calls2].
      cbn [fst] in *. repeat split; try apply Hg2; try congruence; lia.
    + cbn [fst]. repeat split; try apply Hg1; try congruence; lia.
  - destruct (Z.gtb_spec y (v_height self)) as [Hy | Hy].
    + pose proof (geometry_resize (y + 1) (v_width self) self)
        as (Hg2 & Hh2 & Hw2 & Hp2).
      destruct (resize (y + 1) (v_width self) self) as [self2 calls2].
      cbn [fst] in *. repeat split; try apply Hg2; try congruence; lia.
    + cbn [fst]. repeat split; try apply Hg; lia.
Qed.

Lemma add_line_calls (y x : Z) (line : string) (bold highlight : bool)
    (self : t) :
  exists resizes,
    Forall (fun c => exists h w, c = Pad_resize h w) resizes
    /\ snd (add_line A_BOLD A_REVERSE y x line bold highlight self)
       = resizes
         ++ (if bold
             then [Pad_attron
                     (Z.lor (_style (fst (add_line A_BOLD A_REVERSE y x line
                                            bold highlight self))) A_BOLD)]
             else [])
         ++ (if highlight
             then [Pad_attron
                     (Z.lor (_style (fst (add_line A_BOLD A_REVERSE y x line
                                            bold highlight self))) A_REVERSE)]
             else [])
         ++ (if y <? d_height (fst (add_line A_BOLD A_REVERSE y x line
                                      bold highlight self))
             then [Pad_addstr y x line] else [])
         ++ (if bold
             then [Pad_attroff
                     (Z.lor (_style (fst (add_line A_BOLD A_REVERSE y x line
                                            bold highlight self))) A_BOLD)]
             else [])
         ++ (if highlight
             then [Pad_attroff
                     (Z.lor (_style (fst (add_line A_BOLD A_REVERSE y x line
                                            bold highlight self))) A_REVERSE)]
             else []).
Proof.
  destruct self as [vh vw [ph pw] pad dh dw bd sel st nr spy spx sly slx].
  unfold add_line, resize, reset_draw_dimensions.
  cbn -[Z.add Z.sub Z.gtb Z.ltb Z.min Z.lor len].
  destruct (len line + x >? vw) eqn:Ew;
    cbn -[Z.add Z.sub Z.gtb Z.ltb Z.min Z.lor len];
    destruct (y >? vh) eqn:Eh;
    cbn -[Z.add Z.sub Z.gtb Z.ltb Z.min Z.lor len].
  - exists [Pad_resize vh (len line + x); Pad_resize (y + 1) (len line + x)].
    split; [repeat constructor; eauto | reflexivity].
  - exists [Pad_resize vh (len line + x)].
    split; [repeat constructor; eauto | reflexivity].
  - exists [Pad_resize (y + 1) vw].
    split; [repeat constructor; eauto | reflexivity].
  - exists []. split; [constructor | reflexivity].
Qed.

End PaneProperties.

(** X21.  Scrolling by a rate that is not negative keeps the scroll
    position within [0] and its limit, in both directions and on both
    axes. *)
Theorem scroll_stays_in_limits (rate : Z) (self : Pane.t) :
  0 <= rate ->
  Pane.in_limits self ->
  Pane.in_limits (snd (Pane.scroll_up rate self))
  /\ Pane.in_limits (snd (Pane.scroll_down rate self))
  /\ Pane.in_limits (snd (Pane.scroll_left rate self))
  /\ Pane.in_limits (snd (Pane.scroll_right rate self)).
Proof.
  intros Hr [Hy Hx].
  unfold Pane.in_limits, Pane.scroll_up, Pane.scroll_down, Pane.scroll_left,
    Pane.scroll_right.
  destruct (Z.ltb_spec (Pane.scroll_position_y self - rate) 0),
           (Z.gtb_spec (Pane.scroll_position_y self + rate)
                       (Pane.scroll_limit_y self)),
           (Z.ltb_spec (Pane.scroll_position_x self - rate) 0),
           (Z.gtb_spec (Pane.scroll_position_x self + rate)
                       (Pane.scroll_limit_x self));
    cbn; lia.
Qed.

Lemma scroll_stays_in_limits_witness :
  let self :=
    {| Pane.v_height := 40; Pane.v_width := 80;
       Pane.parent := (24, 80); Pane._pad := (40, 80);
       Pane.d_height := 23; Pane.d_width := 79;
       Pane.border := true; Pane.selected := false;
       Pane._style := 0; Pane.needs_refresh := false;
       Pane.scroll_position_y := 15; Pane.scroll_position_x := 0;
       Pane.scroll_limit_y := 17; Pane.scroll_limit_x := 0 |} in
  Pane.in_limits self
  /\ Pane.in_limits (snd (Pane.scroll_down 5 self)).
Proof.
  intros self.
  assert (H : Pane.in_limits self) by (unfold Pane.in_limits; cbn; lia).
  split; [exact H |].
  exact (proj1 (proj2 (scroll_stays_in_limits 5 self ltac:(lia) H))).
Defined.

(** X22.  The flag a scroll method returns tells whether the pane moved
    by the full rate: a scroll that returns [True] is undone by the
    opposite scroll of the same rate, which returns [True] as well, and a
    scroll that returns [False] has stopped the pane at the end it ran
    into. *)
Theorem scroll_round_trip (rate : Z) (self : Pane.t) :
  Pane.in_limits self ->
  (fst (Pane.scroll_down rate self) = true ->
   Pane.scroll_up rate (snd (Pane.scroll_down rate self)) = (true, self))
  /\ (fst (Pane.scroll_right rate self) = true ->
      Pane.scroll_left rate (snd (Pane.scroll_right rate self)) = (true, self))
  /\ (fst (Pane.scroll_down rate self) = false ->
      Pane.scroll_position_y (snd (Pane.scroll_down rate self))
      = Pane.scroll_limit_y self)
  /\ (fst (Pane.scroll_up rate self) = false ->
      Pane.scroll_position_y (snd (Pane.scroll_up rate self)) = 0).
Proof.
  intros [Hy Hx].
  unfold Pane.scroll_up, Pane.scroll_down, Pane.scroll_left, Pane.scroll_right.
  repeat split.
  - destruct (Z.gtb_spec (Pane.scroll_position_y self + rate)
                         (Pane.scroll_limit_y self)); [discriminate |].
    intros _. cbn.
    replace (Pane.scroll_position_y self + rate - rate)
      with (Pane.scroll_position_y self) by lia.
    destruct (Z.ltb_spec (Pane.scroll_position_y self) 0); [lia |].
    now destruct self.
  - destruct (Z.gtb_spec (Pane.scroll_position_x self + rate)
                         (Pane.scroll_limit_x self)); [discriminate |].
    intros _. cbn.
    replace (Pane.scroll_position_x self + rate - rate)
      with (Pane.scroll_position_x self) by lia.
    destruct (Z.ltb_spec (Pane.scroll_position_x self) 0); [lia |].
    now destruct self.
  - destruct (Z.gtb_spec (Pane.scroll_position_y self + rate)
                         (Pane.scroll_limit_y self)); [reflexivity | discriminate].
  - destruct (Z.ltb_spec (Pane.scroll_position_y self - rate) 0);
      [reflexivity | discriminate].
Qed.

Lemma scroll_round_trip_witness :
  let self :=
    {| Pane.v_height := 40; Pane.v_width := 80;
       Pane.parent := (24, 80); Pane._pad := (40, 80);
       Pane.d_height := 23; Pane.d_width := 79;
       Pane.border := true; Pane.selected := false;
       Pane._style := 0; Pane.needs_refresh := false;
       Pane.scroll_position_y := 15; Pane.scroll_position_x := 0;
       Pane.scroll_limit_y := 17; Pane.scroll_limit_x := 0 |} in
  Pane.scroll_up 2 (snd (Pane.scroll_down 2 self)) = (true, self).
Proof.
  intros self.
  refine (proj1 (scroll_round_trip 2 self _) eq_refl).
  unfold Pane.in_limits; cbn; lia.
Defined.


(** X24.  [add_line] writes inside the pad.  On a pane whose geometry is
    in order, and for a position that is not negative, every [addstr] it
    makes lies within the pad as it is after the call; the pad is then at
    least as wide as the line needs, and has not shrunk. *)
Theorem add_line_inside_pad (A_BOLD A_REVERSE : Z) (y x : Z) (line : string)
    (bold highlight : bool) (self : Pane.t) :
  Pane.geometry self -> 0 <= y -> 0 <= x ->
  let result := Pane.add_line A_BOLD A_REVERSE y x line bold highlight self in
  Forall (Pane.inside (Pane._pad (fst result))) (snd result)
  /\ Pane.geometry (fst result)
  /\ x + Pane.len line <= Pane.v_width (fst result)
  /\ Pane.v_width self <= Pane.v_width (fst result)
  /\ Pane.v_height self <= Pane.v_height (fst result).
Proof.
  intros Hg Hy Hx result.
  destruct (add_line_state A_BOLD A_REVERSE y x line bold highlight self Hg)
    as (Hg' & Hp & Hw & Hh).
  fold result in Hg', Hp, Hw, Hh.
  destruct (add_line_calls A_BOLD A_REVERSE y x line bold highlight self)
    as (resizes & Hres & Hcalls).
  fold result in Hcalls.
  split; [| split; [exact Hg' |]].
  - rewrite Hcalls. destruct Hg' as (Hpad & Hdh & Hdw). rewrite Hpad.
    rewrite !Forall_app. repeat split.
    + eapply Forall_impl; [| exact Hres].
      intros c (h & w & ->). exact I.
    + destruct bold; repeat constructor.
    + destruct highlight; repeat constructor.
    + destruct (Z.ltb_spec y (Pane.d_height (fst result)));
        repeat constructor; cbn [fst snd]; lia.
    + destruct bold; repeat constructor.
    + destruct highlight; repeat constructor.
  - rewrite Hw, Hh. destruct (Z.gtb_spec y (Pane.v_height self)); lia.
Qed.

Lemma add_line_inside_pad_witness :
  let self := sample_pane in
  Pane.geometry self
  /\ Forall (Pane.inside
               (Pane._pad (fst (Pane.add_line 2097152 262144 12 4
                                  "0x181 PDO1_TX" true false self))))
            (snd (Pane.add_line 2097152 262144 12 4
                    "0x181 PDO1_TX" true false self)).
Proof.
  intros self.
  assert (Hg : Pane.geometry self) by (unfold Pane.geometry; cbn; auto).
  split; [exact Hg |].
  exact (proj1 (add_line_inside_pad 2097152 262144 12 4 "0x181 PDO1_TX"
                  true false self Hg ltac:(lia) ltac:(lia))).
Defined.

(** X25.  Which lines [add_line] draws.  On a pane whose geometry is in
    order the line is written exactly when its row lies above the last
    row of the parent and is not the row just below the pad: a line at
    row [v_height] neither grows the pad nor is written, and neither is
    any line at or below row [p_height - 1], although the pad grows for
    it. *)
Theorem add_line_draws_iff (A_BOLD A_REVERSE : Z) (y x : Z) (line : string)
    (bold highlight : bool) (self : Pane.t) :
  Pane.geometry self ->
  In (Pane.Pad_addstr y x line)
     (snd (Pane.add_line A_BOLD A_REVERSE y x line bold highlight self))
  <-> y <> Pane.v_height self /\ y < fst (Pane.parent self) - 1.
Proof.
  intros Hg.
  destruct (add_line_state A_BOLD A_REVERSE y x line bold highlight self Hg)
    as ((_ & Hdh & _) & Hp & _ & Hh).
  destruct (add_line_calls A_BOLD A_REVERSE y x line bold highlight self)
    as (resizes & Hres & Hcalls).
  rewrite Hcalls. rewrite !in_app_iff.
  assert (Hnores : ~ In (Pane.Pad_addstr y x line) resizes).
  { intros Hin. rewrite Forall_forall in Hres.
    destruct (Hres _ Hin) as (h & w & Heq). discriminate Heq. }
  assert (Hdrawn :
            y < Pane.d_height
                  (fst (Pane.add_line A_BOLD A_REVERSE y x line bold
                          highlight self))
            <-> y <> Pane.v_height self /\ y < fst (Pane.parent self) - 1).
  { rewrite Hdh, Hh, Hp.
    destruct (Z.gtb_spec y (Pane.v_height self)); lia. }
  destruct (Z.ltb_spec y
              (Pane.d_height
                 (fst (Pane.add_line A_BOLD A_REVERSE y x line bold
                         highlight self)))) as [Hlt | Hge].
  - split; [intros _; now apply Hdrawn |].
    intros _. right. right. right. left. now left.
  - split; [| intros Hd; apply Hdrawn in Hd; lia].
    intros [Hin | [Hin | [Hin | [Hin | [Hin | Hin]]]]];
      try contradiction;
      repeat match goal with
             | H : In _ (if ?b then _ else _) |- _ => destruct b
             | H : In _ [] |- _ => destruct H
             | H : In _ [_] |- _ => destruct H as [H | []]; discriminate H
             end.
Qed.

Lemma add_line_draws_iff_witness :
  let self := sample_pane in
  Pane.geometry self
  /\ ~ In (Pane.Pad_addstr 10 0 "dropped")
         (snd (Pane.add_line 2097152 262144 10 0 "dropped" false false self)).
Proof.
  intros self.
  assert (Hg : Pane.geometry self) by (unfold Pane.geometry; cbn; auto).
  split; [exact Hg |].
  intros Hin.
  apply (add_line_draws_iff 2097152 262144 10 0 "dropped" false false self Hg)
    in Hin.
  destruct Hin as [Hne _]. now apply Hne.
Defined.

(** X26.  The scroll position plays no part in drawing: [refresh] always
    shows the pad from its top left corner, so that after any scroll
    [refresh], [draw] and [clear] make the very calls they would have
    made before it. *)
Theorem scroll_does_not_move_the_view (rate : Z) (self : Pane.t) :
  let same (self' : Pane.t) :=
    snd (Pane.refresh self') = snd (Pane.refresh self)
    /\ snd (Pane.draw self') = snd (Pane.draw self)
    /\ snd (Pane.clear self') = snd (Pane.clear self)
    /\ Forall (fun c => match c with
                        | Pane.Pad_refresh pminrow pmincol _ _ _ _ =>
                            pminrow = 0 /\ pmincol = 0
                        | _ => True
                        end)
              (snd (Pane.draw self') ++ snd (Pane.clear self')) in
  same (snd (Pane.scroll_up rate self))
  /\ same (snd (Pane.scroll_down rate self))
  /\ same (snd (Pane.scroll_left rate self))
  /\ same (snd (Pane.scroll_right rate self)).
Proof.
  cbv zeta.
  destruct self as [vh vw [ph pw] pad dh dw bd sel st nr spy spx sly slx].
  unfold Pane.scroll_up, Pane.scroll_down, Pane.scroll_left, Pane.scroll_right.
  cbn -[Z.add Z.sub Z.ltb Z.gtb].
  destruct (spy - rate <? 0), (spy + rate >? sly),
           (spx - rate <? 0), (spx + rate >? slx);
    cbn [snd];
    unfold Pane.draw, Pane.clear, Pane.refresh, Pane.box;
    destruct nr, bd; cbn -[Z.add Z.sub];
    repeat split; repeat constructor.
Qed.

Lemma for_each_fifo_witness :
  BusLoop.for_each
    [ ([0x282], []); ([], []); ([], []); ([], [0x301]); ([], []) ]
    sample_bus
  = ([0x701; 0x181; 0x282], MagicCANBus.with_queue [0x301] sample_bus, true)
  /\ [0x301] = snd (nth 3 [ ([0x282], []); ([], []); ([], []);
                            ([], [0x301]); ([], []) ] ([], [])).
Proof.
  split; [reflexivity |].
  exact (proj1 (proj1 (proj2
           (for_each_fifo
              [ ([0x282], []); ([], []); ([], []); ([], [0x301]); ([], []) ]
              sample_bus)) eq_refl)).
Defined.

